(* ===================================================================== *)
(* opentrack, filter-kalman/kalman.cpp: the adaptive Kalman filter and   *)
(* deadzone chain, embedded over exact arithmetic.                        *)
(*                                                                       *)
(* `double` is read as an ordered field R (no rounding, no NaN, no        *)
(* infinities); Eigen's fixed-shape matrices are MathComp matrices of    *)
(* the shapes KalmanFilter::init() allocates; every C++ object is a      *)
(* record and every member function threads the record explicitly.       *)
(*                                                                       *)
(* DeadzoneFilter::filter, whose interval property depends on rounding,  *)
(* is read twice more: over R with every operation followed by a         *)
(* rounding, and in IEEE 754 binary64.                                   *)
(* ===================================================================== *)

From Stdlib Require BinInt.
From Corelib Require SpecFloat.
From HB Require Import structures.
From mathcomp Require Import boot order algebra.

Set Implicit Arguments.
Unset Strict Implicit.
Unset Printing Implicit Defensive.

Import Order.Theory GRing.Theory Num.Theory.
Local Open Scope ring_scope.

(* NUM_MEASUREMENT_DOF and NUM_STATE_DOF of kalman.h: 6 (three translations
   and three rotations) and 12 (the pose and its velocity), written as the
   sums the loops of kalman.cpp index them by (i and i + 3, i and i + 6). *)
Notation NZ := (3 + 3)%N.
Notation NS := (NZ + NZ)%N.

(* ------------------------------------------------------------------- *)
(* What kalman.cpp takes from elsewhere                                  *)
(* ------------------------------------------------------------------- *)

(* <cmath>: std::sqrt and pow. *)
Class LibM (R : Type) := {
  sqrt : R -> R;
  pow : R -> R -> R
}.

(* Eigen: Matrix::inverse(), called on the NZ x NZ innovation covariance. *)
Class EigenInverse (R : realFieldType) := {
  inverse : 'M[R]_NZ -> 'M[R]_NZ
}.

(* kalman.h, struct settings: the compiled-in constants and the slider
   mapping (kalman.cpp only re-declares the constants' storage). *)
Class SettingsConstants (R : Type) := {
  adaptivity_window_length : R;
  deadzone_scale : R;
  deadzone_exponent : R;
  process_sigma_pos : R;
  process_simga_rot : R;
  map_slider_value : R -> R
}.

Section Kalman.

Context {R : realFieldType}.
Context {libm : LibM R} {eigen : EigenInverse R} {consts : SettingsConstants R}.

(* The two live options of struct settings, read through `s`. *)
Record settings := Settings {
  noise_pos_slider_value : R;
  noise_rot_slider_value : R
}.

(* std::numeric_limits<double>::max() *)
Definition DBL_MAX : R := 2%:R ^+ 1024 - 2%:R ^+ 971.

(* std::min and std::max as <algorithm> defines them. *)
Definition std_min (a b : R) : R := if b < a then b else a.
Definition std_max (a b : R) : R := if a < b then b else a.

Definition PoseVector := 'cV[R]_NZ.
Definition StateVector := 'cV[R]_NS.

(* ------------------------------------------------------------------- *)
(* Element access and counted loops                                      *)
(* ------------------------------------------------------------------- *)

(* M(i, j) = v *)
Definition mx_set m n (M : 'M[R]_(m, n)) (i : 'I_m) (j : 'I_n) (v : R)
  : 'M[R]_(m, n) :=
  \matrix_(k, l) if (k == i) && (l == j) then v else M k l.

(* v[i] = x *)
Definition vec_set n (v : 'cV[R]_n) (i : 'I_n) (x : R) : 'cV[R]_n :=
  \col_k if k == i then x else v k 0.

(* for (int i = 0; i < n; ++i) body(i) *)
Definition for_ord n (S : Type) (body : 'I_n -> S -> S) (st : S) : S :=
  foldl (fun acc i => body i acc) st (enum 'I_n).

(* state.head(6) and the first six entries of a 12-diagonal *)
Definition head6 (v : 'cV[R]_NS) : PoseVector :=
  \col_(i < NZ) v (lshift NZ i) 0.

Definition diagonal (M : 'M[R]_NS) : 'cV[R]_NS := \col_k M k k.

(* ------------------------------------------------------------------- *)
(* KalmanFilter                                                          *)
(* ------------------------------------------------------------------- *)

Record KalmanFilter := MkKalmanFilter {
  measurement_noise_cov : 'M[R]_(NZ, NZ);
  process_noise_cov : 'M[R]_(NS, NS);
  kalman_gain : 'M[R]_(NS, NZ);
  measurement_matrix : 'M[R]_(NZ, NS);
  state_cov : 'M[R]_(NS, NS);
  state_cov_prior : 'M[R]_(NS, NS);
  transition_matrix : 'M[R]_(NS, NS);
  state : StateVector;
  state_prior : StateVector;
  innovation : PoseVector
}.

Definition set_measurement_noise_cov v (kf : KalmanFilter) :=
  MkKalmanFilter v (process_noise_cov kf) (kalman_gain kf)
    (measurement_matrix kf) (state_cov kf) (state_cov_prior kf)
    (transition_matrix kf) (state kf) (state_prior kf) (innovation kf).

Definition set_process_noise_cov v (kf : KalmanFilter) :=
  MkKalmanFilter (measurement_noise_cov kf) v (kalman_gain kf)
    (measurement_matrix kf) (state_cov kf) (state_cov_prior kf)
    (transition_matrix kf) (state kf) (state_prior kf) (innovation kf).

Definition set_kalman_gain v (kf : KalmanFilter) :=
  MkKalmanFilter (measurement_noise_cov kf) (process_noise_cov kf) v
    (measurement_matrix kf) (state_cov kf) (state_cov_prior kf)
    (transition_matrix kf) (state kf) (state_prior kf) (innovation kf).

Definition set_measurement_matrix v (kf : KalmanFilter) :=
  MkKalmanFilter (measurement_noise_cov kf) (process_noise_cov kf)
    (kalman_gain kf) v (state_cov kf) (state_cov_prior kf)
    (transition_matrix kf) (state kf) (state_prior kf) (innovation kf).

Definition set_state_cov v (kf : KalmanFilter) :=
  MkKalmanFilter (measurement_noise_cov kf) (process_noise_cov kf)
    (kalman_gain kf) (measurement_matrix kf) v (state_cov_prior kf)
    (transition_matrix kf) (state kf) (state_prior kf) (innovation kf).

Definition set_state_cov_prior v (kf : KalmanFilter) :=
  MkKalmanFilter (measurement_noise_cov kf) (process_noise_cov kf)
    (kalman_gain kf) (measurement_matrix kf) (state_cov kf) v
    (transition_matrix kf) (state kf) (state_prior kf) (innovation kf).

Definition set_transition_matrix v (kf : KalmanFilter) :=
  MkKalmanFilter (measurement_noise_cov kf) (process_noise_cov kf)
    (kalman_gain kf) (measurement_matrix kf) (state_cov kf)
    (state_cov_prior kf) v (state kf) (state_prior kf) (innovation kf).

Definition set_state v (kf : KalmanFilter) :=
  MkKalmanFilter (measurement_noise_cov kf) (process_noise_cov kf)
    (kalman_gain kf) (measurement_matrix kf) (state_cov kf)
    (state_cov_prior kf) (transition_matrix kf) v (state_prior kf)
    (innovation kf).

Definition set_state_prior v (kf : KalmanFilter) :=
  MkKalmanFilter (measurement_noise_cov kf) (process_noise_cov kf)
    (kalman_gain kf) (measurement_matrix kf) (state_cov kf)
    (state_cov_prior kf) (transition_matrix kf) (state kf) v
    (innovation kf).

Definition set_innovation v (kf : KalmanFilter) :=
  MkKalmanFilter (measurement_noise_cov kf) (process_noise_cov kf)
    (kalman_gain kf) (measurement_matrix kf) (state_cov kf)
    (state_cov_prior kf) (transition_matrix kf) (state kf)
    (state_prior kf) v.

(* KalmanFilter::init(): every member is overwritten, so the object it is
   called on does not matter. *)
Definition KalmanFilter_init (_ : KalmanFilter) : KalmanFilter :=
  {| measurement_noise_cov := 0;
     process_noise_cov := 0;
     kalman_gain := 0;
     measurement_matrix := 0;
     state_cov := 0;
     state_cov_prior := 0;
     transition_matrix := 0;
     state := 0;
     state_prior := 0;
     innovation := 0 |}.

Definition KalmanFilter_time_update (kf : KalmanFilter) : KalmanFilter :=
  let kf := set_state_prior (transition_matrix kf *m state kf) kf in
  set_state_cov_prior
    (transition_matrix kf *m state_cov kf *m (transition_matrix kf)^T
     + process_noise_cov kf) kf.

Definition KalmanFilter_measurement_update (kf : KalmanFilter)
    (measurement : PoseVector) : KalmanFilter :=
  let tmp := measurement_matrix kf *m state_cov_prior kf
             *m (measurement_matrix kf)^T + measurement_noise_cov kf in
  let tmp_inv := inverse tmp in
  let kf := set_kalman_gain
              (state_cov_prior kf *m (measurement_matrix kf)^T *m tmp_inv)
              kf in
  let kf := set_innovation
              (measurement - measurement_matrix kf *m state_prior kf) kf in
  let kf := set_state (state_prior kf + kalman_gain kf *m innovation kf) kf in
  set_state_cov
    (state_cov_prior kf
     - kalman_gain kf *m measurement_matrix kf *m state_cov_prior kf) kf.

(* ------------------------------------------------------------------- *)
(* KalmanProcessNoiseScaler                                              *)
(* ------------------------------------------------------------------- *)

Record KalmanProcessNoiseScaler := MkScaler {
  base_cov : 'M[R]_(NS, NS);
  innovation_cov_estimate : 'M[R]_(NZ, NZ)
}.

Definition set_base_cov v (sc : KalmanProcessNoiseScaler) :=
  MkScaler v (innovation_cov_estimate sc).

Definition set_innovation_cov_estimate v (sc : KalmanProcessNoiseScaler) :=
  MkScaler (base_cov sc) v.

Definition KalmanProcessNoiseScaler_init (_ : KalmanProcessNoiseScaler)
  : KalmanProcessNoiseScaler :=
  {| base_cov := 0; innovation_cov_estimate := 0 |}.

(* Lines 77-83 of update(): the scaling factor from the two traces. *)
Definition scaling_factor (T1 T2 : R) : R :=
  let alpha := 1 / 1000%:R in
  if (0 < T2) && (0 < T1) then
    let alpha := T1 / T2 in
    let alpha := sqrt alpha in
    std_min 1000%:R (std_max (1 / 1000%:R) alpha)
  else alpha.

(* Lines 70-73: the exponentially weighted innovation covariance. *)
Definition updated_innovation_cov_estimate
    (self : KalmanProcessNoiseScaler) (kf : KalmanFilter) (dt : R)
  : 'M[R]_(NZ, NZ) :=
  let ddT := innovation kf *m (innovation kf)^T in
  let f := dt / (dt + adaptivity_window_length) in
  f *: ddT + (1 - f) *: innovation_cov_estimate self.

Definition trace_T1 (self : KalmanProcessNoiseScaler) (kf : KalmanFilter)
  : R :=
  \tr (innovation_cov_estimate self - measurement_noise_cov kf).

Definition trace_T2 (kf : KalmanFilter) : R :=
  \tr (measurement_matrix kf *m state_cov_prior kf
       *m (measurement_matrix kf)^T).

Definition KalmanProcessNoiseScaler_update
    (self : KalmanProcessNoiseScaler) (kf : KalmanFilter) (dt : R)
  : KalmanProcessNoiseScaler * KalmanFilter :=
  let self := set_innovation_cov_estimate
                (updated_innovation_cov_estimate self kf dt) self in
  let T1 := trace_T1 self kf in
  let T2 := trace_T2 kf in
  let alpha := scaling_factor T1 T2 in
  (self, set_process_noise_cov (alpha *: base_cov self) kf).

(* ------------------------------------------------------------------- *)
(* DeadzoneFilter                                                        *)
(* ------------------------------------------------------------------- *)

Record DeadzoneFilter := MkDeadzone {
  last_output : PoseVector;
  dz_size : PoseVector
}.

Definition set_last_output v (dz : DeadzoneFilter) :=
  MkDeadzone v (dz_size dz).

Definition set_dz_size v (dz : DeadzoneFilter) :=
  MkDeadzone (last_output dz) v.

(** Modelled from the spec: DeadzoneFilter::reset() is declared in kalman.h,
    which is not part of the sources.  The spec says that a reset "clears
    the deadzone filter state" and that `dz_size` and `last_output` are
    "reset to zero/initial pose on configuration reset". *)
Definition DeadzoneFilter_reset (_ : DeadzoneFilter) : DeadzoneFilter :=
  {| last_output := 0; dz_size := 0 |}.

(* One turn of the loop of DeadzoneFilter::filter, on (this, out). *)
Definition deadzone_step (input : PoseVector) (i : 'I_NZ)
    (st : DeadzoneFilter * PoseVector) : DeadzoneFilter * PoseVector :=
  let self := st.1 in
  let out := st.2 in
  let dz := dz_size self i 0 in
  let out :=
    if 0 < dz then
      let delta := input i 0 - last_output self i 0 in
      let f := pow (`|delta| / dz) deadzone_exponent in
      let response := f / (f + 1) * delta in
      vec_set out i (last_output self i 0 + response)
    else vec_set out i (input i 0) in
  (set_last_output (vec_set (last_output self) i (out i 0)) self, out).

(* `PoseVector out;` is uninitialised storage; every entry is written by
   the loop, so the model starts it from zero. *)
Definition DeadzoneFilter_filter (self : DeadzoneFilter)
    (input : PoseVector) : DeadzoneFilter * PoseVector :=
  for_ord (deadzone_step input) (self, 0).



(* ------------------------------------------------------------------- *)
(* FTNoIR_Filter                                                         *)
(* ------------------------------------------------------------------- *)

(** Modelled from the spec: class Timer (compat/timer.hpp) is not part of
    the sources.  The spec describes "a monotonic elapsed-time clock, read
    and restarted at well-defined points": a timer is the clock reading at
    its last start, and a call is given the clock reading `now`. *)
Definition Timer := R.
Definition Timer_start (_ : Timer) (now : R) : Timer := now.
Definition Timer_elapsed_seconds (t : Timer) (now : R) : R := now - t.

Record FTNoIR_Filter := MkFilter {
  kf : KalmanFilter;
  kf_adaptive_process_noise_cov : KalmanProcessNoiseScaler;
  dz_filter : DeadzoneFilter;
  timer : Timer;
  first_run : bool;
  dt_since_last_input : R;
  last_input : PoseVector;
  (* double prev_slider_pos[2] *)
  prev_slider_pos : R * R;
  minimal_state_var : PoseVector
}.

Definition set_kf v (self : FTNoIR_Filter) :=
  MkFilter v (kf_adaptive_process_noise_cov self) (dz_filter self)
    (timer self) (first_run self) (dt_since_last_input self)
    (last_input self) (prev_slider_pos self) (minimal_state_var self).

Definition set_kf_adaptive_process_noise_cov v (self : FTNoIR_Filter) :=
  MkFilter (kf self) v (dz_filter self)
    (timer self) (first_run self) (dt_since_last_input self)
    (last_input self) (prev_slider_pos self) (minimal_state_var self).

Definition set_timer v (self : FTNoIR_Filter) :=
  MkFilter (kf self) (kf_adaptive_process_noise_cov self) (dz_filter self)
    v (first_run self) (dt_since_last_input self)
    (last_input self) (prev_slider_pos self) (minimal_state_var self).

Definition set_first_run v (self : FTNoIR_Filter) :=
  MkFilter (kf self) (kf_adaptive_process_noise_cov self) (dz_filter self)
    (timer self) v (dt_since_last_input self)
    (last_input self) (prev_slider_pos self) (minimal_state_var self).

Definition set_dt_since_last_input v (self : FTNoIR_Filter) :=
  MkFilter (kf self) (kf_adaptive_process_noise_cov self) (dz_filter self)
    (timer self) (first_run self) v
    (last_input self) (prev_slider_pos self) (minimal_state_var self).

(* fill_transition_matrix(dt) writes kf.transition_matrix only; it is
   given the member it writes. *)
Definition FTNoIR_Filter_fill_transition_matrix (kf : KalmanFilter)
    (dt : R) : KalmanFilter :=
  for_ord (fun (i : 'I_NZ) kf =>
    set_transition_matrix
      (mx_set (transition_matrix kf) (lshift NZ i) (rshift NZ i) dt) kf) kf.

(* The four assignments in the body of either loop of
   fill_process_noise_cov_matrix, for the pose axis i (rows and columns i
   and i + 6) and the value a_pos or a_ang. *)
Definition process_noise_axis (a b c : R) (i : 'I_NZ)
    (target : 'M[R]_(NS, NS)) : 'M[R]_(NS, NS) :=
  let target := mx_set target (lshift NZ i) (lshift NZ i) a in
  let target := mx_set target (lshift NZ i) (rshift NZ i) (a * c) in
  let target := mx_set target (rshift NZ i) (lshift NZ i) (a * c) in
  mx_set target (rshift NZ i) (rshift NZ i) (a * b).

(* The first loop runs i over 0..2, the second over 3..5 (3 + i). *)
Definition FTNoIR_Filter_fill_process_noise_cov_matrix
    (target : 'M[R]_(NS, NS)) (dt : R) : 'M[R]_(NS, NS) :=
  let sigma_pos := process_sigma_pos in
  let sigma_angle := process_simga_rot in
  let a_pos := sigma_pos * sigma_pos * dt in
  let a_ang := sigma_angle * sigma_angle * dt in
  let b := 20%:R in
  let c := 1 in
  let target :=
    for_ord (fun (i : 'I_3) => process_noise_axis a_pos b c (lshift 3 i))
      target in
  for_ord (fun (i : 'I_3) => process_noise_axis a_ang b c (rshift 3 i))
    target.

Definition FTNoIR_Filter_do_kalman_filter (self : FTNoIR_Filter)
    (input : PoseVector) (dt : R) (new_input : bool)
  : FTNoIR_Filter * PoseVector :=
  let self :=
    if new_input then
      let dt := dt_since_last_input self in
      let kf := FTNoIR_Filter_fill_transition_matrix (kf self) dt in
      let scaler := kf_adaptive_process_noise_cov self in
      let scaler :=
        set_base_cov
          (FTNoIR_Filter_fill_process_noise_cov_matrix (base_cov scaler) dt)
          scaler in
      let upd := KalmanProcessNoiseScaler_update scaler kf dt in
      let kf := KalmanFilter_time_update upd.2 in
      let kf := KalmanFilter_measurement_update kf input in
      set_kf kf (set_kf_adaptive_process_noise_cov upd.1 self)
    else self in
  (self, head6 (state (kf self))).

(* The first loop of reset(), on kf. *)
Definition reset_constant_entries (kf : KalmanFilter) : KalmanFilter :=
  for_ord (fun (i : 'I_NZ) kf =>
    let kf := set_transition_matrix
                (mx_set (transition_matrix kf) (lshift NZ i) (lshift NZ i) 1)
                kf in
    let kf := set_transition_matrix
                (mx_set (transition_matrix kf) (rshift NZ i) (rshift NZ i) 1)
                kf in
    set_measurement_matrix
      (mx_set (measurement_matrix kf) i (lshift NZ i) 1) kf) kf.

(* The second loop of reset(), on kf. *)
Definition reset_measurement_noise (noise_variance_position
    noise_variance_angle : R) (kf : KalmanFilter) : KalmanFilter :=
  for_ord (fun (i : 'I_3) kf =>
    let kf := set_measurement_noise_cov
                (mx_set (measurement_noise_cov kf) (lshift 3 i) (lshift 3 i)
                   noise_variance_position) kf in
    set_measurement_noise_cov
      (mx_set (measurement_noise_cov kf) (rshift 3 i) (rshift 3 i)
         noise_variance_angle) kf) kf.

(* reset() assigns the members one after the other; the object is put
   together from them at the end.  The timer is the one member it does not
   write. *)
Definition FTNoIR_Filter_reset (self : FTNoIR_Filter) (s : settings)
  : FTNoIR_Filter :=
  let kf := KalmanFilter_init (kf self) in
  let scaler :=
    KalmanProcessNoiseScaler_init (kf_adaptive_process_noise_cov self) in
  let kf := reset_constant_entries kf in
  let noise_variance_position :=
    map_slider_value (noise_pos_slider_value s) in
  let noise_variance_angle :=
    map_slider_value (noise_rot_slider_value s) in
  let kf := reset_measurement_noise noise_variance_position
              noise_variance_angle kf in
  let kf := FTNoIR_Filter_fill_transition_matrix kf (3%:R / 100%:R) in
  let scaler :=
    set_base_cov
      (FTNoIR_Filter_fill_process_noise_cov_matrix (base_cov scaler)
         (3%:R / 100%:R)) scaler in
  let kf := set_process_noise_cov (base_cov scaler) kf in
  let kf := set_state_cov (process_noise_cov kf) kf in
  let last_input :=
    for_ord (fun (i : 'I_NZ) last_input => vec_set last_input i 0)
      (last_input self) in
  let first_run := true in
  let dt_since_last_input := 0 in
  let prev_slider_pos :=
    (noise_pos_slider_value s, (prev_slider_pos self).2) in
  let prev_slider_pos := (prev_slider_pos.1, noise_rot_slider_value s) in
  let minimal_state_var := const_mx DBL_MAX in
  let dz_filter := DeadzoneFilter_reset (dz_filter self) in
  MkFilter kf scaler dz_filter (timer self) first_run dt_since_last_input
    last_input prev_slider_pos minimal_state_var.

(* FTNoIR_Filter::FTNoIR_Filter(): reset() on the members as their own
   constructors left them. *)
Definition FTNoIR_Filter_ctor (members : FTNoIR_Filter) (s : settings)
  : FTNoIR_Filter :=
  FTNoIR_Filter_reset members s.

(* Line 217: do the sliders differ from the ones captured by reset()? *)
Definition sliders_changed (self : FTNoIR_Filter) (s : settings) : bool :=
  ((prev_slider_pos self).1 != noise_pos_slider_value s)
  || ((prev_slider_pos self).2 != noise_rot_slider_value s).

(* Line 233: input.cwiseNotEqual(last_input).any() *)
Definition is_new_input (self : FTNoIR_Filter) (input : PoseVector) : bool :=
  [exists i, input i 0 != last_input self i 0].

(* Lines 250-252 *)
Definition variance_of (kf : KalmanFilter) : PoseVector :=
  head6 (diagonal (state_cov kf)).

Definition cwiseMin (u v : PoseVector) : PoseVector :=
  \col_i std_min (u i 0) (v i 0).

Definition cwiseSqrt (u : PoseVector) : PoseVector :=
  \col_i sqrt (u i 0).

(* The deadzone size of line 252, from the variance and its running
   minimum. *)
Definition deadzone_size (variance minimal : PoseVector) : PoseVector :=
  \col_i (cwiseSqrt (variance - minimal) i 0 * deadzone_scale).

(* Lines 223-261: what filter() does once the slider check is over.  The
   caller's output buffer is passed in and handed back. *)
Definition filter_after_slider_check (self : FTNoIR_Filter) (s : settings)
    (now : R) (input output : PoseVector) : FTNoIR_Filter * PoseVector :=
  if first_run self then
    let self := set_timer (Timer_start (timer self) now) self in
    let self := set_first_run false self in
    (self, output)
  else
    let new_input := is_new_input self input in
    let dt := Timer_elapsed_seconds (timer self) now in
    let self := set_dt_since_last_input (dt_since_last_input self + dt)
                  self in
    let self := set_timer (Timer_start (timer self) now) self in
    let k := FTNoIR_Filter_do_kalman_filter self input dt new_input in
    let self := k.1 in
    let output := k.2 in
    let variance := variance_of (kf self) in
    let minimal_state_var := cwiseMin (minimal_state_var self) variance in
    let dz_filter :=
      set_dz_size (deadzone_size variance minimal_state_var)
        (dz_filter self) in
    let d := DeadzoneFilter_filter dz_filter output in
    let dz_filter := d.1 in
    let output := d.2 in
    let dt_since_last_input :=
      if new_input then 0 else dt_since_last_input self in
    let last_input := if new_input then input else last_input self in
    (MkFilter (kf self) (kf_adaptive_process_noise_cov self) dz_filter
       (timer self) (first_run self) dt_since_last_input last_input
       (prev_slider_pos self) minimal_state_var,
     output).

(* Lines 217-221 *)
Definition slider_check (self : FTNoIR_Filter) (s : settings)
  : FTNoIR_Filter :=
  if sliders_changed self s then FTNoIR_Filter_reset self s else self.

Definition FTNoIR_Filter_filter (self : FTNoIR_Filter) (s : settings)
    (now : R) (input output : PoseVector) : FTNoIR_Filter * PoseVector :=
  let self := slider_check self s in
  filter_after_slider_check self s now input output.

(* ------------------------------------------------------------------- *)
(* Sequences of calls                                                    *)
(* ------------------------------------------------------------------- *)

(* What one call of filter() is given: the live slider options, the clock
   reading and the raw pose. *)
Record tick := Tick {
  tick_settings : settings;
  tick_now : R;
  tick_input : PoseVector
}.

Definition run_tick (st : FTNoIR_Filter * PoseVector) (t : tick)
  : FTNoIR_Filter * PoseVector :=
  FTNoIR_Filter_filter st.1 (tick_settings t) (tick_now t) (tick_input t)
    st.2.

(* A filter constructed with the sliders s0, then called once per tick. *)
Definition run (members : FTNoIR_Filter) (s0 : settings)
    (output : PoseVector) (ticks : seq tick) : FTNoIR_Filter * PoseVector :=
  foldl run_tick (FTNoIR_Filter_ctor members s0, output) ticks.

(* ------------------------------------------------------------------- *)
(* Notions the properties are stated with                                *)
(* ------------------------------------------------------------------- *)

(* clamp(x, lo, hi) as the spec writes it. *)
Definition clamp (x lo hi : R) : R :=
  if x < lo then lo else if hi < x then hi else x.

(* What one axis of the deadzone filter returns, from the previous output,
   the deadzone size and the input of that axis. *)
Definition deadzone_axis (last dz x : R) : R :=
  if 0 < dz then
    let delta := x - last in
    let f := pow (`|delta| / dz) deadzone_exponent in
    last + f / (f + 1) * delta
  else x.


Definition symmetric n (A : 'M[R]_n) : Prop := A^T = A.

Definition quad n (A : 'M[R]_n) (x : 'rV[R]_n) : R := (x *m A *m x^T) 0 0.

Definition psd n (A : 'M[R]_n) : Prop := forall x : 'rV[R]_n, 0 <= quad A x.

Definition pd n (A : 'M[R]_n) : Prop :=
  forall x : 'rV[R]_n, x != 0 -> 0 < quad A x.

(* The pose axis a state index belongs to: i and i + 6 both belong to i. *)
Definition axis_of (k : 'I_NS) : 'I_NZ :=
  match split k with inl j => j | inr j => j end.

(* 1, c, c or b according to the position/velocity block of (k, l). *)
Definition block_coef (b c : R) (k l : 'I_NS) : R :=
  match split k, split l with
  | inl _, inl _ => 1
  | inl _, inr _ => c
  | inr _, inl _ => c
  | inr _, inr _ => b
  end.

(* a_pos on the three translation axes, a_ang on the three rotation axes. *)
Definition axis_value (a_pos a_ang : R) (j : 'I_NZ) : R :=
  match split j with inl _ => a_pos | inr _ => a_ang end.

Definition process_noise_mx (a_pos a_ang b c : R) : 'M[R]_NS :=
  \matrix_(k, l) if axis_of k == axis_of l
                 then axis_value a_pos a_ang (axis_of k) * block_coef b c k l
                 else 0.

Definition off_axis_zero (M : 'M[R]_NS) : Prop :=
  forall k l : 'I_NS, axis_of k != axis_of l -> M k l = 0.

Definition measurement_noise_mx (noise_variance_position
    noise_variance_angle : R) : 'M[R]_NZ :=
  diag_mx (\row_j axis_value noise_variance_position noise_variance_angle j).

Definition nominal_process_noise : 'M[R]_NS :=
  process_noise_mx (process_sigma_pos * process_sigma_pos * (3%:R / 100%:R))
    (process_simga_rot * process_simga_rot * (3%:R / 100%:R)) 20%:R 1.

Definition filter_inv self : Prop :=
  [/\ symmetric (state_cov (kf self)),
      psd (state_cov (kf self)),
      symmetric (state_cov_prior (kf self)),
      psd (state_cov_prior (kf self)) &
      measurement_noise_cov (kf self)
      = measurement_noise_mx (map_slider_value (prev_slider_pos self).1)
          (map_slider_value (prev_slider_pos self).2)]
  /\ [/\ off_axis_zero (base_cov (kf_adaptive_process_noise_cov self)) &
         0 <= dt_since_last_input self].

(* ------------------------------------------------------------------- *)
(* Isotropic states: the same numbers on all six axes                    *)
(* ------------------------------------------------------------------- *)

(* When the six axes carry the same numbers, every 12 x 12 matrix of the
   filter is a 2 x 2 matrix of scalar 6 x 6 blocks, and every vector is
   constant on the pose half and on the velocity half. *)
Record M2 := MkM2 { m11 : R; m12 : R; m21 : R; m22 : R }.

Definition M2_mul (a b : M2) : M2 :=
  MkM2 (m11 a * m11 b + m12 a * m21 b) (m11 a * m12 b + m12 a * m22 b)
       (m21 a * m11 b + m22 a * m21 b) (m21 a * m12 b + m22 a * m22 b).

Definition M2_add (a b : M2) : M2 :=
  MkM2 (m11 a + m11 b) (m12 a + m12 b) (m21 a + m21 b) (m22 a + m22 b).

Definition M2_sub (a b : M2) : M2 :=
  MkM2 (m11 a - m11 b) (m12 a - m12 b) (m21 a - m21 b) (m22 a - m22 b).

Definition M2_scale (c : R) (a : M2) : M2 :=
  MkM2 (c * m11 a) (c * m12 a) (c * m21 a) (c * m22 a).

Definition M2_tr (a : M2) : M2 := MkM2 (m11 a) (m21 a) (m12 a) (m22 a).

Definition iso_mx (a : M2) : 'M[R]_NS :=
  block_mx (m11 a)%:M (m12 a)%:M (m21 a)%:M (m22 a)%:M.

Definition iso_vec (x : R * R) : 'cV[R]_NS :=
  col_mx (const_mx x.1) (const_mx x.2).

Definition iso_gain (k : R * R) : 'M[R]_(NS, NZ) := col_mx k.1%:M k.2%:M.

(* The measurement matrix reset() builds: the pose half of the state. *)
Definition pose_selector : 'M[R]_(NZ, NS) := row_mx 1%:M 0.

(* The Kalman filter with the same numbers on every axis. *)
Record IsoKalman := MkIsoKalman {
  iso_r : R;            (* measurement_noise_cov = r I *)
  iso_Q : M2;           (* process_noise_cov *)
  iso_K : R * R;        (* kalman_gain *)
  iso_P : M2;           (* state_cov *)
  iso_Pp : M2;          (* state_cov_prior *)
  iso_d : R;            (* transition_matrix = [1 d; 0 1] *)
  iso_x : R * R;        (* state *)
  iso_xp : R * R;       (* state_prior *)
  iso_y : R             (* innovation *)
}.

Definition kf_of_iso (i : IsoKalman) : KalmanFilter :=
  {| measurement_noise_cov := (iso_r i)%:M;
     process_noise_cov := iso_mx (iso_Q i);
     kalman_gain := iso_gain (iso_K i);
     measurement_matrix := pose_selector;
     state_cov := iso_mx (iso_P i);
     state_cov_prior := iso_mx (iso_Pp i);
     transition_matrix := iso_mx (MkM2 1 (iso_d i) 0 1);
     state := iso_vec (iso_x i);
     state_prior := iso_vec (iso_xp i);
     innovation := const_mx (iso_y i) |}.

(* time_update and measurement_update on the numbers. *)
Definition iso_time_update (i : IsoKalman) : IsoKalman :=
  let F := MkM2 1 (iso_d i) 0 1 in
  let xp := ((iso_x i).1 + iso_d i * (iso_x i).2, (iso_x i).2) in
  let Pp := M2_add (M2_mul (M2_mul F (iso_P i)) (M2_tr F)) (iso_Q i) in
  MkIsoKalman (iso_r i) (iso_Q i) (iso_K i) (iso_P i) Pp (iso_d i)
    (iso_x i) xp (iso_y i).

(* S = H P_prior H^T + R on the numbers. *)
Definition iso_S (i : IsoKalman) : R := m11 (iso_Pp i) + iso_r i.

Definition iso_measurement_update (i : IsoKalman) (z : R) : IsoKalman :=
  let s := iso_S i in
  let K := (m11 (iso_Pp i) / s, m21 (iso_Pp i) / s) in
  let y := z - (iso_xp i).1 in
  let x := ((iso_xp i).1 + K.1 * y, (iso_xp i).2 + K.2 * y) in
  let P := M2_sub (iso_Pp i) (M2_mul (MkM2 K.1 0 K.2 0) (iso_Pp i)) in
  MkIsoKalman (iso_r i) (iso_Q i) K P (iso_Pp i) (iso_d i) x (iso_xp i) y.

(* The whole filter with the same numbers on every axis. *)
Record IsoFilter := MkIsoFilter {
  iso_kf : IsoKalman;
  iso_base : M2;          (* base_cov *)
  iso_e : R;              (* every entry of innovation_cov_estimate *)
  iso_last_output : R;
  iso_dz_size : R;
  iso_timer : R;
  iso_first_run : bool;
  iso_dt : R;             (* dt_since_last_input *)
  iso_last_input : R;
  iso_slider : R;         (* both entries of prev_slider_pos *)
  iso_minimal : R         (* minimal_state_var *)
}.

Definition filter_of_iso (i : IsoFilter) : FTNoIR_Filter :=
  {| kf := kf_of_iso (iso_kf i);
     kf_adaptive_process_noise_cov :=
       MkScaler (iso_mx (iso_base i)) (const_mx (iso_e i));
     dz_filter := MkDeadzone (const_mx (iso_last_output i))
                    (const_mx (iso_dz_size i));
     timer := iso_timer i;
     first_run := iso_first_run i;
     dt_since_last_input := iso_dt i;
     last_input := const_mx (iso_last_input i);
     prev_slider_pos := (iso_slider i, iso_slider i);
     minimal_state_var := const_mx (iso_minimal i) |}.

(* fill_process_noise_cov_matrix on the numbers (equal process sigmas). *)
Definition iso_process_noise (dt : R) : M2 :=
  let a := process_sigma_pos * process_sigma_pos * dt in
  MkM2 a (a * 1) (a * 1) (a * 20%:R).

(* KalmanProcessNoiseScaler::update on the numbers: the traces of 6 x 6
   matrices are six times their diagonal entry. *)
Definition iso_scaler_update (k : IsoKalman) (base : M2) (e dt : R)
  : R * IsoKalman :=
  let f := dt / (dt + adaptivity_window_length) in
  let e := f * (iso_y k * iso_y k) + (1 - f) * e in
  let T1 := (e - iso_r k) *+ NZ in
  let T2 := m11 (iso_Pp k) *+ NZ in
  let alpha := scaling_factor T1 T2 in
  (e, MkIsoKalman (iso_r k) (M2_scale alpha base) (iso_K k) (iso_P k)
        (iso_Pp k) (iso_d k) (iso_x k) (iso_xp k) (iso_y k)).

(* The Kalman filter right before measurement_update in do_kalman_filter. *)
Definition iso_predict (i : IsoFilter) : R * IsoKalman :=
  let dt := iso_dt i in
  let k := iso_kf i in
  let k := MkIsoKalman (iso_r k) (iso_Q k) (iso_K k) (iso_P k) (iso_Pp k) dt
             (iso_x k) (iso_xp k) (iso_y k) in
  let upd := iso_scaler_update k (iso_process_noise dt) (iso_e i) dt in
  (upd.1, iso_time_update upd.2).

Definition iso_do_kalman_filter (i : IsoFilter) (z : R) (new_input : bool)
  : IsoFilter * R :=
  let i :=
    if new_input then
      let p := iso_predict i in
      MkIsoFilter (iso_measurement_update p.2 z)
        (iso_process_noise (iso_dt i)) p.1
        (iso_last_output i) (iso_dz_size i) (iso_timer i) (iso_first_run i)
        (iso_dt i) (iso_last_input i) (iso_slider i) (iso_minimal i)
    else i in
  (i, (iso_x (iso_kf i)).1).

Definition iso_reset (i : IsoFilter) (v : R) : IsoFilter :=
  let base := iso_process_noise (3%:R / 100%:R) in
  MkIsoFilter
    (MkIsoKalman (map_slider_value v) base (0, 0) base (MkM2 0 0 0 0)
       (3%:R / 100%:R) (0, 0) (0, 0) 0)
    base 0 0 0 (iso_timer i) true 0 0 v DBL_MAX.

(* filter() on the numbers: both sliders at v, the pose z on every axis. *)
Definition iso_filter (i : IsoFilter) (v now z o : R) : IsoFilter * R :=
  let i := if iso_slider i != v then iso_reset i v else i in
  if iso_first_run i then
    (MkIsoFilter (iso_kf i) (iso_base i) (iso_e i) (iso_last_output i)
       (iso_dz_size i) now false (iso_dt i) (iso_last_input i)
       (iso_slider i) (iso_minimal i), o)
  else
    let new_input := z != iso_last_input i in
    let dt := now - iso_timer i in
    let i := MkIsoFilter (iso_kf i) (iso_base i) (iso_e i)
               (iso_last_output i) (iso_dz_size i) now (iso_first_run i)
               (iso_dt i + dt) (iso_last_input i) (iso_slider i)
               (iso_minimal i) in
    let k := iso_do_kalman_filter i z new_input in
    let i := k.1 in
    let variance := m11 (iso_P (iso_kf i)) in
    let minimal := std_min (iso_minimal i) variance in
    let dz := sqrt (variance - minimal) * deadzone_scale in
    let out := deadzone_axis (iso_last_output i) dz k.2 in
    (MkIsoFilter (iso_kf i) (iso_base i) (iso_e i) out dz (iso_timer i)
       (iso_first_run i) (if new_input then 0 else iso_dt i)
       (if new_input then z else iso_last_input i) (iso_slider i) minimal,
     out).

(* S of the measurement_update a call of filter() runs, and 1 when it runs
   none. *)
Definition iso_filter_S (i : IsoFilter) (v now z : R) : R :=
  let i := if iso_slider i != v then iso_reset i v else i in
  if iso_first_run i || (z == iso_last_input i) then 1
  else
    let i := MkIsoFilter (iso_kf i) (iso_base i) (iso_e i)
               (iso_last_output i) (iso_dz_size i) now (iso_first_run i)
               (iso_dt i + (now - iso_timer i)) (iso_last_input i)
               (iso_slider i) (iso_minimal i) in
    iso_S (iso_predict i).2.

(* The parts of the Kalman model that only reset() and
   fill_transition_matrix write: the measurement matrix picks the pose
   half of the state, the transition matrix is the constant-velocity one
   [I d I; 0 I] for some time step d, and the measurement noise is the one
   of the sliders captured in prev_slider_pos. *)
Definition constant_velocity_model (self : FTNoIR_Filter) : Prop :=
  [/\ measurement_matrix (kf self) = row_mx 1%:M 0,
      exists d : R,
        transition_matrix (kf self) = block_mx 1%:M d%:M 0 1%:M &
      measurement_noise_cov (kf self)
      = diag_mx (\row_j axis_value
                   (map_slider_value (prev_slider_pos self).1)
                   (map_slider_value (prev_slider_pos self).2) j)].

End Kalman.

(* ===================================================================== *)
(* A concrete instance over the rationals                                 *)
(* ===================================================================== *)

(* The square root of a rational, exact on squares of rationals (the
   integer square roots of numerator and denominator). *)
Definition rat_sqrt (x : rat) : rat :=
  if 0 <= x then (Nat.sqrt `|numq x|)%:R / (Nat.sqrt `|denq x|)%:R else 0.

(* pow on the rationals, exact for integer exponents. *)
Definition rat_pow (x e : rat) : rat :=
  if denq e == 1 then x ^ numq e else 1.

#[export] Instance rat_libm : LibM rat :=
  {| sqrt := rat_sqrt; pow := rat_pow |}.

#[export] Instance rat_eigen : EigenInverse rat :=
  {| inverse := fun A => invmx A |}.

(* A quarter-second window, a deadzone of two standard deviations with a
   quadratic knee, process sigmas of one half, and the slider mapping
   v |-> 10^(4 v - 3). *)
#[export] Instance rat_consts : SettingsConstants rat :=
  {| adaptivity_window_length := 1 / 4%:R;
     deadzone_scale := 2%:R;
     deadzone_exponent := 2%:R;
     process_sigma_pos := 1 / 2%:R;
     process_simga_rot := 1 / 2%:R;
     map_slider_value := fun v => rat_pow 10%:R (4%:R * v - 3%:R) |}.

(* Members as their own constructors could have left them. *)
Definition blank_members : FTNoIR_Filter (R := rat) :=
  {| kf := MkKalmanFilter 0 0 0 0 0 0 0 0 0 0;
     kf_adaptive_process_noise_cov := MkScaler 0 0;
     dz_filter := MkDeadzone 0 0;
     timer := 0;
     first_run := false;
     dt_since_last_input := 0;
     last_input := 0;
     prev_slider_pos := (0, 0);
     minimal_state_var := 0 |}.

Definition sliders_a : settings (R := rat) :=
  {| noise_pos_slider_value := 1 / 2%:R; noise_rot_slider_value := 1 / 2%:R |}.

Definition sliders_b : settings (R := rat) :=
  {| noise_pos_slider_value := 3%:R / 4%:R;
     noise_rot_slider_value := 1 / 2%:R |}.

(* The pose (1, 1, 1, 1, 1, 1). *)
Definition unit_pose : PoseVector (R := rat) := const_mx 1.

(* A filter freshly constructed with sliders_a, and the same after its
   warm-up tick at time 0. *)
Definition fresh_filter : FTNoIR_Filter (R := rat) :=
  FTNoIR_Filter_ctor blank_members sliders_a.

Definition warmed_filter : FTNoIR_Filter (R := rat) :=
  (FTNoIR_Filter_filter fresh_filter sliders_a 0 unit_pose 0).1.

(* A running filter: the Kalman estimate is the unit pose with unit
   variance on every axis, the running variance minimum is 3/4, and the
   deadzone filter last returned the zero pose; the stored last input is
   the unit pose. *)
Definition running_filter : FTNoIR_Filter (R := rat) :=
  {| kf := set_state (const_mx 1) (set_state_cov 1%:M (kf fresh_filter));
     kf_adaptive_process_noise_cov :=
       kf_adaptive_process_noise_cov fresh_filter;
     dz_filter := MkDeadzone 0 0;
     timer := 0;
     first_run := false;
     dt_since_last_input := 0;
     last_input := unit_pose;
     prev_slider_pos := (1 / 2%:R, 1 / 2%:R);
     minimal_state_var := const_mx (3%:R / 4%:R) |}.

(* The same running filter once the running variance minimum has caught up
   with the variance: both are 1 on every axis. *)
Definition settled_filter : FTNoIR_Filter (R := rat) :=
  {| kf := kf running_filter;
     kf_adaptive_process_noise_cov :=
       kf_adaptive_process_noise_cov running_filter;
     dz_filter := MkDeadzone 0 0;
     timer := 0;
     first_run := false;
     dt_since_last_input := 0;
     last_input := unit_pose;
     prev_slider_pos := (1 / 2%:R, 1 / 2%:R);
     minimal_state_var := const_mx 1 |}.

(* Three calls at times 0, 1/10 and 2/10. *)
Definition three_ticks : seq (tick (R := rat)) :=
  [:: Tick sliders_a 0 unit_pose;
      Tick sliders_a (1 / 10%:R) unit_pose;
      Tick sliders_a (2%:R / 10%:R) 0].

(* A Kalman filter that measures the pose half of its state without noise,
   with unit prior covariance. *)
Definition noise_free_kf : KalmanFilter (R := rat) :=
  MkKalmanFilter 0 0 0 (row_mx 1%:M 0) 0 1%:M 0 0 0 0.

(* A running isotropic filter: on every axis the position is 1 with unit
   variance, the velocity is 0 with unit variance, the measurement noise is
   1, the last input was 1 and both sliders are at 3/4. *)
Definition iso_running : IsoFilter (R := rat) :=
  {| iso_kf := MkIsoKalman 1 (MkM2 0 0 0 0) (0, 0) (MkM2 1 0 0 1)
                 (MkM2 0 0 0 0) 0 (1, 0) (0, 0) 0;
     iso_base := MkM2 0 0 0 0;
     iso_e := 0;
     iso_last_output := 0;
     iso_dz_size := 0;
     iso_timer := 0;
     iso_first_run := false;
     iso_dt := 0;
     iso_last_input := 1;
     iso_slider := 3%:R / 4%:R;
     iso_minimal := 1 |}.


(* ===================================================================== *)
(* DeadzoneFilter::filter in binary64                                     *)
(* ===================================================================== *)

Section Binary64.

Import BinNums BinInt SpecFloat.









End Binary64.

(* ===================================================================== *)
(* Properties                                                             *)
(* ===================================================================== *)

Section KalmanTheory.

Context {R : realFieldType}.
Context {libm : LibM R} {eigen : EigenInverse R} {consts : SettingsConstants R}.

Local Notation PoseVector := (@PoseVector R).
Local Notation KalmanFilter := (@KalmanFilter R).
Local Notation KalmanProcessNoiseScaler := (@KalmanProcessNoiseScaler R).
Local Notation DeadzoneFilter := (@DeadzoneFilter R).
Local Notation FTNoIR_Filter := (@FTNoIR_Filter R).
Local Notation settings := (@settings R).

Implicit Types (kf : KalmanFilter) (self : FTNoIR_Filter) (s : settings).
Implicit Types (input output : PoseVector).

(* ------------------------------------------------------------------- *)
(* Counted loops                                                         *)
(* ------------------------------------------------------------------- *)

Lemma for_ord_frame n (S T : Type) (body : 'I_n -> S -> S) (proj : S -> T) :
  (forall i st, proj (body i st) = proj st) ->
  forall st, proj (for_ord body st) = proj st.
Proof.
move=> Hbody st; rewrite /for_ord.
by elim: (enum 'I_n) st => [|i s IH] st //=; rewrite IH Hbody.
Qed.

Lemma for_ord_proj n (S T : Type) (body : 'I_n -> S -> S) (proj : S -> T)
    (g : 'I_n -> T -> T) :
  (forall i st, proj (body i st) = g i (proj st)) ->
  forall st, proj (for_ord body st) = for_ord g (proj st).
Proof.
move=> Hbody st; rewrite /for_ord.
by elim: (enum 'I_n) st => [|i s IH] st //=; rewrite IH Hbody.
Qed.

(* A loop whose turn i overwrites the entries picked by `hit i` with values
   that depend on the position only. *)
Lemma for_ord_entries n m p (body : 'I_n -> 'M[R]_(m, p) -> 'M[R]_(m, p))
    (hit : 'I_n -> 'I_m -> 'I_p -> bool) (V : 'I_m -> 'I_p -> R) :
  (forall i M k l, body i M k l = if hit i k l then V k l else M k l) ->
  forall M k l,
    for_ord body M k l = if [exists i, hit i k l] then V k l else M k l.
Proof.
move=> Hbody M k l.
have -> : [exists i, hit i k l] = has (fun i => hit i k l) (enum 'I_n).
  apply/existsP/hasP => [[i Hi]|[i _ Hi]]; last by exists i.
  by exists i => //; rewrite mem_enum.
rewrite /for_ord; elim: (enum 'I_n) M => [|i s IH] M //=.
rewrite IH Hbody; case: (has _ s) => //=; first by rewrite orbT.
by rewrite orbF.
Qed.

(* ------------------------------------------------------------------- *)
(* KalmanFilter::measurement_update                                      *)
(* ------------------------------------------------------------------- *)

(** C1: measurement_update computes S = H P_prior H^T + R, the gain
    K = P_prior H^T S^-1 and the innovation y = measurement - H state_prior,
    and stores K, y, state = state_prior + K y and
    state_cov = P_prior - K H P_prior; the six other members keep their
    values, and the function is total (no input is rejected). *)
Theorem measurement_update_equations kf (measurement : PoseVector) :
  let H := measurement_matrix kf in
  let P_prior := state_cov_prior kf in
  let S := H *m P_prior *m H^T + measurement_noise_cov kf in
  let K := P_prior *m H^T *m inverse S in
  let y := measurement - H *m state_prior kf in
  let kf' := KalmanFilter_measurement_update kf measurement in
  [/\ kalman_gain kf' = K,
      innovation kf' = y,
      state kf' = state_prior kf + K *m y &
      state_cov kf' = P_prior - K *m H *m P_prior]
  /\ [/\ measurement_noise_cov kf' = measurement_noise_cov kf,
         process_noise_cov kf' = process_noise_cov kf &
         measurement_matrix kf' = measurement_matrix kf]
  /\ [/\ state_cov_prior kf' = state_cov_prior kf,
         transition_matrix kf' = transition_matrix kf &
         state_prior kf' = state_prior kf].
Proof. by []. Qed.

(* ------------------------------------------------------------------- *)
(* KalmanProcessNoiseScaler::update                                      *)
(* ------------------------------------------------------------------- *)

Lemma std_min_max_clamp (x : R) :
  std_min 1000%:R (std_max (1 / 1000%:R) x) = clamp x (1 / 1000%:R) 1000%:R.
Proof.
rewrite /std_min /std_max /clamp.
case: (ltP (1 / 1000%:R) x) => h1; case: (ltP x (1 / 1000%:R)) => h2;
  try (case: (ltP 1000%:R x) => h3); try (case: (ltP _ 1000%:R) => h4); lra.
Qed.

Lemma clamp_bounds (x : R) :
  1 / 1000%:R <= clamp x (1 / 1000%:R) 1000%:R <= 1000%:R.
Proof.
rewrite /clamp; case: (ltP x (1 / 1000%:R)) => h1; first by apply/andP; split; lra.
by case: (ltP 1000%:R x) => h2; apply/andP; split; lra.
Qed.

Lemma scaling_factor_bounds (T1 T2 : R) :
  1 / 1000%:R <= scaling_factor T1 T2 <= 1000%:R.
Proof.
rewrite /scaling_factor; case: ifP => _; last by apply/andP; split; lra.
by rewrite std_min_max_clamp clamp_bounds.
Qed.

(** C2: for every scaler, filter and dt, update() stores the exponentially
    weighted innovation covariance, computes alpha from
    T1 = trace(innovation_cov_estimate - R) and T2 = trace(H P_prior H^T) as
    clamp(sqrt(T1/T2), 0.001, 1000) when both traces are positive and as
    0.001 otherwise, so that 0.001 <= alpha <= 1000 whatever the inputs, and
    sets process_noise_cov = alpha * base_cov. *)
Theorem scaler_update_alpha (sc : KalmanProcessNoiseScaler) kf
    (dt : R) :
  let r := KalmanProcessNoiseScaler_update sc kf dt in
  let T1 := \tr (innovation_cov_estimate r.1 - measurement_noise_cov kf) in
  let T2 := \tr (measurement_matrix kf *m state_cov_prior kf
                 *m (measurement_matrix kf)^T) in
  let alpha := if (0 < T1) && (0 < T2)
               then clamp (sqrt (T1 / T2)) (1 / 1000%:R) 1000%:R
               else 1 / 1000%:R in
  [/\ 1 / 1000%:R <= alpha <= 1000%:R,
      process_noise_cov r.2 = alpha *: base_cov sc,
      base_cov r.1 = base_cov sc &
      innovation_cov_estimate r.1
      = (dt / (dt + adaptivity_window_length))
          *: (innovation kf *m (innovation kf)^T)
        + (1 - dt / (dt + adaptivity_window_length))
          *: innovation_cov_estimate sc].
Proof.
move=> r T1 T2 alpha.
have alphaE : alpha = scaling_factor T1 T2.
  by rewrite /alpha /scaling_factor andbC; case: ifP => // _; rewrite std_min_max_clamp.
split=> //; first by rewrite alphaE scaling_factor_bounds.
by rewrite alphaE.
Qed.

(* ------------------------------------------------------------------- *)
(* DeadzoneFilter::filter                                                *)
(* ------------------------------------------------------------------- *)

Lemma deadzone_stepE (input : PoseVector) (i : 'I_NZ)
    (st : DeadzoneFilter * PoseVector) :
  let v := deadzone_axis (last_output st.1 i 0) (dz_size st.1 i 0)
             (input i 0) in
  deadzone_step input i st
  = (set_last_output (vec_set (last_output st.1) i v) st.1,
     vec_set st.2 i v).
Proof.
by rewrite /deadzone_step /deadzone_axis; case: ifP => _ /=; rewrite mxE eqxx.
Qed.

Lemma deadzone_loop (input : PoseVector) (self : DeadzoneFilter)
    (out0 : PoseVector) (s : seq 'I_NZ) :
  uniq s ->
  let r := foldl (fun acc i => deadzone_step input i acc) (self, out0) s in
  let res k := deadzone_axis (last_output self k 0) (dz_size self k 0)
                 (input k 0) in
  [/\ dz_size r.1 = dz_size self,
      forall k, last_output r.1 k 0
                = if k \in s then res k else last_output self k 0 &
      forall k, r.2 k 0 = if k \in s then res k else out0 k 0].
Proof.
elim/last_ind: s => [|s i IH] //=.
rewrite rcons_uniq => /andP [i_notin uniq_s].
have [dzE lastE outE] := IH uniq_s.
rewrite foldl_rcons deadzone_stepE /=.
set st := foldl _ _ _ in dzE lastE outE *.
rewrite dzE lastE (negbTE i_notin).
by split=> [//|k|k]; rewrite mem_rcons in_cons mxE; case: eqP => [->|_] /=.
Qed.

Lemma DeadzoneFilter_filterE (self : DeadzoneFilter)
    (input : PoseVector) :
  let out := \col_k deadzone_axis (last_output self k 0) (dz_size self k 0)
                      (input k 0) in
  DeadzoneFilter_filter self input = (MkDeadzone out (dz_size self), out).
Proof.
move=> out; rewrite /DeadzoneFilter_filter /for_ord.
have [] := @deadzone_loop input self 0 (enum 'I_NZ) (enum_uniq _).
case: (foldl _ _ _) => [[last' dz'] out'] /= -> lastE outE.
congr (MkDeadzone _ _, _); apply/colP => k; rewrite mxE.
  by rewrite lastE mem_enum.
by rewrite outE mem_enum.
Qed.

(** C9: on an axis whose deadzone size is zero (or not positive), the
    filter returns the input of that axis exactly, and stores it as the
    last output. *)
Theorem deadzone_disabled_axis (self : DeadzoneFilter)
    (input : PoseVector) (i : 'I_NZ) :
  dz_size self i 0 <= 0 ->
  let r := DeadzoneFilter_filter self input in
  r.2 i 0 = input i 0 /\ last_output r.1 i 0 = input i 0.
Proof.
move=> dz_le0; rewrite DeadzoneFilter_filterE /= !mxE /deadzone_axis.
by rewrite ltNge dz_le0.
Qed.

(* pow on a non-negative base is non-negative. *)
Hypothesis pow_ge0 : forall x : R, 0 <= x -> 0 <= pow x deadzone_exponent.

(* ------------------------------------------------------------------- *)
(* DeadzoneFilter::filter with rounding                                  *)
(* ------------------------------------------------------------------- *)





Section Rounding.

(* A rounding while nothing overflows: monotone, exact on 0 and 1, and
   exact on what it returns (round to nearest, and the directed roundings,
   are such). *)
Variable rnd : R -> R.
Hypothesis rnd_le : forall x y : R, x <= y -> rnd x <= rnd y.
Hypothesis rnd0 : rnd 0 = 0.
Hypothesis rnd1 : rnd 1 = 1.
Hypothesis rndK : forall x : R, rnd (rnd x) = rnd x.




End Rounding.

(* ------------------------------------------------------------------- *)
(* FTNoIR_Filter::reset                                                  *)
(* ------------------------------------------------------------------- *)

Lemma vector_neqE (u v : PoseVector) : [exists i, u i 0 != v i 0] = (u != v).
Proof.
apply/existsP/idP => [[i ne_i]|ne_uv].
  by apply: contraNneq ne_i => ->.
apply/existsP; rewrite -negb_forall; apply: contraNN ne_uv => /forallP eq_uv.
by apply/eqP/colP => i; apply/eqP.
Qed.

Lemma last_input_loop (v : PoseVector) :
  for_ord (fun (i : 'I_NZ) last_input => vec_set last_input i 0) v = 0.
Proof.
apply/colP => k.
rewrite (@for_ord_entries _ _ _ _ (fun i k _ => k == i) (fun _ _ => 0)).
  by move=> i M k' l; rewrite mxE (ord1 l).
by rewrite mxE; case: existsP => // -[]; exists k.
Qed.

Lemma reset_fields self s :
  let self' := FTNoIR_Filter_reset self s in
  [/\ first_run self' = true,
      last_input self' = 0,
      dt_since_last_input self' = 0,
      prev_slider_pos self'
      = (noise_pos_slider_value s, noise_rot_slider_value s) &
      minimal_state_var self' = const_mx DBL_MAX]
  /\ [/\ timer self' = timer self &
         dz_filter self' = MkDeadzone 0 0].
Proof. by rewrite /FTNoIR_Filter_reset /= last_input_loop. Qed.

(* reset() overwrites every member but the timer. *)
Lemma reset_overwrites self1 self2 s :
  timer self1 = timer self2 ->
  FTNoIR_Filter_reset self1 s = FTNoIR_Filter_reset self2 s.
Proof. by rewrite /FTNoIR_Filter_reset !last_input_loop => ->. Qed.

Lemma reset_set_timer self s (t : R) :
  FTNoIR_Filter_reset (set_timer t self) s
  = set_timer t (FTNoIR_Filter_reset self s).
Proof. by []. Qed.

Lemma sliders_changed_reset self s :
  sliders_changed (FTNoIR_Filter_reset self s) s = false.
Proof. by rewrite /sliders_changed /= !eqxx. Qed.

(* ------------------------------------------------------------------- *)
(* FTNoIR_Filter::filter                                                 *)
(* ------------------------------------------------------------------- *)

Lemma slider_check_first_run self s :
  first_run self -> first_run (slider_check self s).
Proof. by rewrite /slider_check; case: ifP. Qed.

(** C4: a call of filter() that finds first_run set starts the timer,
    clears first_run and returns: the output buffer is handed back as it
    came, and the Kalman filter, the noise scaler, the deadzone filter, the
    last-input memory and the running minimum are those the slider check of
    lines 217-221 left (the object's own when the sliders did not move);
    right after a reset() the last input and the deadzone filter are the
    reset ones whatever the sliders do. *)
Theorem first_tick_is_warm_up self s (now : R) input output :
  first_run self ->
  let checked := slider_check self s in
  let r := FTNoIR_Filter_filter self s now input output in
  [/\ r.2 = output,
      first_run r.1 = false,
      timer r.1 = Timer_start (timer self) now &
      r.1 = set_first_run false (set_timer now checked)]
  /\ [/\ kf r.1 = kf checked,
         kf_adaptive_process_noise_cov r.1
         = kf_adaptive_process_noise_cov checked,
         dz_filter r.1 = dz_filter checked,
         last_input r.1 = last_input checked &
         minimal_state_var r.1 = minimal_state_var checked]
  /\ [/\ sliders_changed self s = false -> checked = self &
         forall self0 s0, self = FTNoIR_Filter_reset self0 s0 ->
           last_input r.1 = last_input self
           /\ dz_filter r.1 = dz_filter self].
Proof.
move=> first checked r.
have rE : r = (set_first_run false (set_timer now checked), output).
  rewrite /r /FTNoIR_Filter_filter /filter_after_slider_check -/checked.
  by rewrite (slider_check_first_run s first).
rewrite rE; split; first by [].
split; first by [].
split; first by rewrite /checked /slider_check => ->.
move=> self0 s0 selfE; rewrite /checked /slider_check; case: ifP => // _.
have [[_ -> _ _ _] [_ ->]] := reset_fields self s.
by have [[_ last0 _ _ _] [_ dz0]] := reset_fields self0 s0; rewrite selfE last0 dz0.
Qed.

(* A tick that is not the first one, in closed form. *)
Lemma running_tick self s (now : R) input output :
  first_run self = false ->
  let new_input := is_new_input self input in
  let dt := Timer_elapsed_seconds (timer self) now in
  let self1 := set_timer now
                 (set_dt_since_last_input (dt_since_last_input self + dt)
                    self) in
  let k := FTNoIR_Filter_do_kalman_filter self1 input dt new_input in
  let variance := variance_of (kf k.1) in
  let minimal := cwiseMin (minimal_state_var k.1) variance in
  let dz := set_dz_size (deadzone_size variance minimal) (dz_filter k.1) in
  let d := DeadzoneFilter_filter dz k.2 in
  filter_after_slider_check self s now input output
  = (MkFilter (kf k.1) (kf_adaptive_process_noise_cov k.1) d.1
       (timer k.1) (first_run k.1)
       (if new_input then 0 else dt_since_last_input k.1)
       (if new_input then input else last_input k.1)
       (prev_slider_pos k.1) minimal,
     d.2).
Proof. by rewrite /filter_after_slider_check => ->. Qed.

Lemma do_kalman_filter_skip self input (dt : R) :
  FTNoIR_Filter_do_kalman_filter self input dt false
  = (self, head6 (state (kf self))).
Proof. by []. Qed.

(* do_kalman_filter writes kf and the scaler only. *)
Lemma do_kalman_filter_frame self input (dt : R) (new_input : bool) :
  let k := FTNoIR_Filter_do_kalman_filter self input dt new_input in
  [/\ dz_filter k.1 = dz_filter self,
      timer k.1 = timer self,
      first_run k.1 = first_run self,
      dt_since_last_input k.1 = dt_since_last_input self &
      last_input k.1 = last_input self]
  /\ [/\ prev_slider_pos k.1 = prev_slider_pos self,
         minimal_state_var k.1 = minimal_state_var self &
         k.2 = head6 (state (kf k.1))].
Proof. by case: new_input. Qed.

(** C5 (amended): on a tick that is not the first one and whose input
    equals the stored last input, the Kalman step is skipped: the Kalman
    filter (state, covariances and every matrix), the noise scaler and the
    last-input memory are unchanged, and do_kalman_filter hands back the
    pose block of the unchanged state.  filter() then returns the deadzone
    filter applied to that pose, with the deadzone sized from the unchanged
    variance. *)
Theorem repeated_input_skips_kalman_step self s (now : R) input output :
  sliders_changed self s = false ->
  first_run self = false ->
  is_new_input self input = false ->
  let r := FTNoIR_Filter_filter self s now input output in
  let pose := head6 (state (kf self)) in
  let variance := variance_of (kf self) in
  let minimal := cwiseMin (minimal_state_var self) variance in
  let dz := set_dz_size (deadzone_size variance minimal) (dz_filter self) in
  [/\ kf r.1 = kf self,
      kf_adaptive_process_noise_cov r.1 = kf_adaptive_process_noise_cov self,
      last_input r.1 = last_input self &
      forall dt, FTNoIR_Filter_do_kalman_filter self input dt false
                 = (self, pose)]
  /\ [/\ r.2 = (DeadzoneFilter_filter dz pose).2,
         dz_filter r.1 = (DeadzoneFilter_filter dz pose).1 &
         minimal_state_var r.1 = minimal].
Proof.
move=> unchanged not_first not_new.
rewrite /FTNoIR_Filter_filter /slider_check unchanged.
by rewrite running_tick // not_new.
Qed.

(* The state a freshly constructed filter is in after its warm-up tick. *)
Lemma warm_up_tick (members : FTNoIR_Filter) s (now : R) input output :
  let st0 := FTNoIR_Filter_ctor members s in
  let st1 := (FTNoIR_Filter_filter st0 s now input output).1 in
  [/\ st1 = set_first_run false (set_timer now st0),
      sliders_changed st1 s = false,
      first_run st1 = false,
      last_input st1 = 0 &
      slider_check st1 s = st1].
Proof.
move=> st0 st1.
have [[first0 last0 _ prev0 _] _] := reset_fields members s.
have changed0 : sliders_changed st0 s = false by exact: sliders_changed_reset.
have st1E : st1 = set_first_run false (set_timer now st0).
  rewrite /st1 /FTNoIR_Filter_filter /slider_check changed0.
  by rewrite /filter_after_slider_check first0.
have changed1 : sliders_changed st1 s = false by rewrite st1E.
split=> //; first by rewrite st1E.
  by rewrite st1E.
by rewrite /slider_check changed1.
Qed.


(** C7: when a slider value differs from the one captured at the last
    reset, filter() first performs the full reset(); the object it then
    holds has the Kalman filter, scaler, deadzone filter, running minimum,
    last-input memory, first_run flag, elapsed time and captured sliders of
    a filter freshly constructed with the new slider values (only the timer,
    which reset() leaves alone and the tick restarts, is the object's own),
    and the whole call returns what the first call on that fresh filter
    returns. *)
Theorem slider_change_resets self s (now : R) input output
    (members : FTNoIR_Filter) :
  sliders_changed self s ->
  let fresh := FTNoIR_Filter_ctor members s in
  let mid := slider_check self s in
  [/\ mid = FTNoIR_Filter_reset self s,
      set_timer (timer members) mid = fresh,
      first_run mid = true &
      FTNoIR_Filter_filter self s now input output
      = FTNoIR_Filter_filter fresh s now input output]
  /\ [/\ kf mid = kf fresh,
         kf_adaptive_process_noise_cov mid
         = kf_adaptive_process_noise_cov fresh,
         dz_filter mid = dz_filter fresh,
         minimal_state_var mid = minimal_state_var fresh &
         last_input mid = last_input fresh]
  /\ [/\ first_run mid = first_run fresh,
         dt_since_last_input mid = dt_since_last_input fresh &
         prev_slider_pos mid = prev_slider_pos fresh].
Proof.
move=> changed fresh mid.
have midE : mid = FTNoIR_Filter_reset self s by rewrite /mid /slider_check changed.
have freshE : set_timer (timer members) mid = fresh.
  rewrite midE -reset_set_timer /fresh /FTNoIR_Filter_ctor.
  exact: reset_overwrites.
split; last by rewrite -freshE.
split=> //; first by rewrite midE.
have check_fresh : slider_check fresh s = fresh.
  by rewrite /slider_check /fresh /FTNoIR_Filter_ctor sliders_changed_reset.
rewrite /FTNoIR_Filter_filter -/mid check_fresh.
by rewrite /filter_after_slider_check -freshE midE.
Qed.

(* std::sqrt of a non-negative number is non-negative, and so is the
   compiled-in deadzone scale. *)
Hypothesis sqrt_ge0 : forall x : R, 0 <= x -> 0 <= sqrt x.
Hypothesis deadzone_scale_ge0 : 0 <= deadzone_scale.

Lemma std_min_le_r (a b : R) : std_min a b <= b.
Proof. by rewrite /std_min; case: ltP. Qed.

(** C8: on every tick that is not the first one, minimal_state_var has been
    lowered to the component-wise minimum with the current variance before
    the subtraction, so every component of variance - minimal_state_var is
    non-negative, and so is every component of
    dz_size = sqrt(variance - minimal_state_var) * deadzone_scale. *)
Theorem deadzone_size_nonneg self s (now : R) input output (i : 'I_NZ) :
  first_run (slider_check self s) = false ->
  let r := FTNoIR_Filter_filter self s now input output in
  let variance := variance_of (kf r.1) in
  let before := minimal_state_var (slider_check self s) in
  [/\ minimal_state_var r.1 i 0 = std_min (before i 0) (variance i 0),
      0 <= (variance - minimal_state_var r.1) i 0,
      dz_size (dz_filter r.1) i 0
      = sqrt ((variance - minimal_state_var r.1) i 0) * deadzone_scale &
      0 <= dz_size (dz_filter r.1) i 0].
Proof.
move=> not_first; rewrite /FTNoIR_Filter_filter running_tick //.
move: (slider_check self s) => checked.
have := do_kalman_filter_frame
  (set_timer now
     (set_dt_since_last_input
        (dt_since_last_input checked
         + Timer_elapsed_seconds (timer checked) now) checked))
  input (Timer_elapsed_seconds (timer checked) now)
  (is_new_input checked input).
move: (FTNoIR_Filter_do_kalman_filter _ _ _ _) => k [_ [_ minimal_k _]].
rewrite DeadzoneFilter_filterE.
rewrite [minimal_state_var _]/= [dz_filter _]/= [kf _]/= [dz_size _]/=.
rewrite minimal_k [minimal_state_var _]/=.
set v := variance_of (kf k.1); set m := cwiseMin _ v.
have diff_ge0 : 0 <= (v - m) i 0.
  by rewrite !mxE subr_ge0 std_min_le_r.
split=> //; first by rewrite mxE.
  by rewrite mxE [in LHS]mxE.
by rewrite mxE [X in 0 <= X * _]mxE mulr_ge0 // sqrt_ge0.
Qed.

(* ------------------------------------------------------------------- *)
(* Symmetric and positive semi-definite matrices                         *)
(* ------------------------------------------------------------------- *)

Lemma symmetric0 n : symmetric (0 : 'M[R]_n).
Proof. by rewrite /symmetric trmx0. Qed.

Lemma symmetricD n (A B : 'M[R]_n) :
  symmetric A -> symmetric B -> symmetric (A + B).
Proof. by rewrite /symmetric linearD /= => -> ->. Qed.

Lemma symmetricZ n (a : R) (A : 'M[R]_n) : symmetric A -> symmetric (a *: A).
Proof. by rewrite /symmetric linearZ /= => ->. Qed.

Lemma symmetric_congruence m n (F : 'M[R]_(m, n)) (A : 'M[R]_n) :
  symmetric A -> symmetric (F *m A *m F^T).
Proof. by rewrite /symmetric !trmx_mul trmxK mulmxA => ->. Qed.

Lemma quadD n (A B : 'M[R]_n) x : quad (A + B) x = quad A x + quad B x.
Proof. by rewrite /quad mulmxDr mulmxDl mxE. Qed.

Lemma quadZ n (a : R) (A : 'M[R]_n) x : quad (a *: A) x = a * quad A x.
Proof. by rewrite /quad -scalemxAr -scalemxAl mxE. Qed.

Lemma quad_congruence m n (F : 'M[R]_(m, n)) (A : 'M[R]_n) x :
  quad (F *m A *m F^T) x = quad A (x *m F).
Proof. by rewrite /quad trmx_mul !mulmxA. Qed.

Lemma psd0 n : psd (0 : 'M[R]_n).
Proof. by move=> x; rewrite /quad mulmx0 mul0mx mxE. Qed.

Lemma psdD n (A B : 'M[R]_n) : psd A -> psd B -> psd (A + B).
Proof. by move=> psdA psdB x; rewrite quadD addr_ge0. Qed.

Lemma psdZ n (a : R) (A : 'M[R]_n) : 0 <= a -> psd A -> psd (a *: A).
Proof. by move=> a_ge0 psdA x; rewrite quadZ mulr_ge0. Qed.

Lemma psd_congruence m n (F : 'M[R]_(m, n)) (A : 'M[R]_n) :
  psd A -> psd (F *m A *m F^T).
Proof. by move=> psdA x; rewrite quad_congruence. Qed.

Lemma pdD n (A B : 'M[R]_n) : psd A -> pd B -> pd (A + B).
Proof.
by move=> psdA pdB x x_neq0; rewrite quadD ltr_wpDl // pdB.
Qed.

(* A positive definite matrix is invertible. *)
Lemma pd_unitmx n (A : 'M[R]_n) : pd A -> A \in unitmx.
Proof.
move=> pdA; rewrite unitmxE unitfE; apply/negP => /det0P [x x_neq0 xA0].
by have := pdA x x_neq0; rewrite /quad xA0 mul0mx mxE ltxx.
Qed.

(* The covariance update P - K H P with the gain K = P H^T S^-1,
   S = H P H^T + R, is the Joseph form (I - K H) P (I - K H)^T + K R K^T. *)
Lemma joseph_form (P : 'M[R]_NS) (H : 'M[R]_(NZ, NS)) (Rm : 'M[R]_NZ) :
  let S := H *m P *m H^T + Rm in
  let K := P *m H^T *m invmx S in
  S \in unitmx ->
  P - K *m H *m P
  = (1%:M - K *m H) *m P *m (1%:M - K *m H)^T + K *m Rm *m K^T.
Proof.
move=> S K S_unit.
have KS : K *m S = P *m H^T by rewrite /K -mulmxA mulVmx // mulmx1.
have KRK : K *m Rm *m K^T = K *m S *m K^T - K *m H *m P *m H^T *m K^T.
  by rewrite /S !mulmxDr !mulmxDl !mulmxA addrC addKr.
rewrite KRK KS linearB /= trmx1 trmx_mul.
rewrite mulmxBl mul1mx !mulmxBr mulmx1 !mulmxA.
by rewrite !mulmxBl subrK.
Qed.

(* ------------------------------------------------------------------- *)
(* The process noise model in closed form                                *)
(* ------------------------------------------------------------------- *)

Lemma process_noise_axisE (a b c : R) (i : 'I_NZ) (M : 'M[R]_NS)
    (k l : 'I_NS) :
  process_noise_axis a b c i M k l
  = if (axis_of k == i) && (axis_of l == i) then a * block_coef b c k l
    else M k l.
Proof.
rewrite /process_noise_axis /axis_of /block_coef !mxE.
case: (split_ordP k) => k' ->; case: (split_ordP l) => l' ->;
  rewrite !eq_shift ?andbF ?andFb /=.
- by rewrite mulr1.
- by case: ifP.
- by case: ifP => // _; case: ifP.
- by case: ifP => // _; case: ifP => // _; case: ifP.
Qed.

Lemma exists_lshift3 (j j' : 'I_NZ) :
  [exists i : 'I_3, (j == lshift 3 i) && (j' == lshift 3 i)]
  = (j == j') && (split j : 'I_3 + 'I_3).
Proof.
apply/existsP/andP => [[i /andP [/eqP -> /eqP ->]]|[/eqP <-]].
  by rewrite eqxx (unsplitK (inl i)).
by case: split_ordP => // i -> _; exists i; rewrite eqxx.
Qed.

Lemma exists_rshift3 (j j' : 'I_NZ) :
  [exists i : 'I_3, (j == rshift 3 i) && (j' == rshift 3 i)]
  = (j == j') && ~~ (split j : 'I_3 + 'I_3).
Proof.
apply/existsP/andP => [[i /andP [/eqP -> /eqP ->]]|[/eqP <-]].
  by rewrite eqxx (unsplitK (inr i)).
by case: split_ordP => // i -> _; exists i; rewrite eqxx.
Qed.

Lemma fill_process_noise_cov_matrixE (M : 'M[R]_NS) (dt : R)
    (k l : 'I_NS) :
  FTNoIR_Filter_fill_process_noise_cov_matrix M dt k l
  = if axis_of k == axis_of l
    then process_noise_mx (process_sigma_pos * process_sigma_pos * dt)
           (process_simga_rot * process_simga_rot * dt) 20%:R 1 k l
    else M k l.
Proof.
rewrite /FTNoIR_Filter_fill_process_noise_cov_matrix.
set a_pos := process_sigma_pos * _ * dt; set a_ang := process_simga_rot * _ * dt.
rewrite (@for_ord_entries _ _ _ _
           (fun i k l => (axis_of k == rshift 3 i) && (axis_of l == rshift 3 i))
           (fun k l => a_ang * block_coef 20%:R 1 k l)).
  by move=> i M' k' l'; rewrite process_noise_axisE.
rewrite (@for_ord_entries _ _ _ _
           (fun i k l => (axis_of k == lshift 3 i) && (axis_of l == lshift 3 i))
           (fun k l => a_pos * block_coef 20%:R 1 k l)).
  by move=> i M' k' l'; rewrite process_noise_axisE.
rewrite exists_lshift3 exists_rshift3 mxE /axis_value.
by case: eqP => //= _; case: (split (axis_of k)).
Qed.

Lemma off_axis_zero0 : off_axis_zero (0 : 'M[R]_NS).
Proof. by move=> k l _; rewrite mxE. Qed.

Lemma off_axis_zero_fill (M : 'M[R]_NS) (dt : R) :
  off_axis_zero M ->
  off_axis_zero (FTNoIR_Filter_fill_process_noise_cov_matrix M dt).
Proof.
move=> M0 k l ne_kl; rewrite fill_process_noise_cov_matrixE.
by rewrite (negbTE ne_kl) M0.
Qed.

Lemma fill_process_noise_cov_matrix_mx (M : 'M[R]_NS) (dt : R) :
  off_axis_zero M ->
  FTNoIR_Filter_fill_process_noise_cov_matrix M dt
  = process_noise_mx (process_sigma_pos * process_sigma_pos * dt)
      (process_simga_rot * process_simga_rot * dt) 20%:R 1.
Proof.
move=> M0; apply/matrixP => k l; rewrite fill_process_noise_cov_matrixE.
by case: ifP => // /negbT ne_kl; rewrite M0 // mxE (negbTE ne_kl).
Qed.

Lemma block_coefC (b c : R) (k l : 'I_NS) :
  block_coef b c k l = block_coef b c l k.
Proof. by rewrite /block_coef; case: (split k); case: (split l). Qed.

Lemma symmetric_process_noise_mx (a_pos a_ang b c : R) :
  symmetric (process_noise_mx a_pos a_ang b c).
Proof.
apply/matrixP => k l; rewrite !mxE eq_sym block_coefC.
by case: eqP => // ->.
Qed.

Lemma sum_pick n (F : 'I_n -> R) (j : 'I_n) :
  \sum_i (if i == j then F i else 0) = F j.
Proof. by rewrite -big_mkcond big_pred1_eq. Qed.

Lemma axis_of_lshift (i : 'I_NZ) : axis_of (lshift NZ i) = i.
Proof. by rewrite /axis_of (unsplitK (inl i)). Qed.

Lemma axis_of_rshift (i : 'I_NZ) : axis_of (rshift NZ i) = i.
Proof. by rewrite /axis_of (unsplitK (inr i)). Qed.

Lemma block_coef_shift (b c : R) (i i' : 'I_NZ) :
  [/\ block_coef b c (lshift NZ i) (lshift NZ i') = 1,
      block_coef b c (lshift NZ i) (rshift NZ i') = c,
      block_coef b c (rshift NZ i) (lshift NZ i') = c &
      block_coef b c (rshift NZ i) (rshift NZ i') = b].
Proof.
by rewrite /block_coef !(unsplitK (inl _)) !(unsplitK (inr _)).
Qed.

Lemma sum_pick_mul n (u w : 'I_n -> R) (j : 'I_n) :
  \sum_i u i * (if i == j then w i else 0) = u j * w j.
Proof.
rewrite -[RHS](sum_pick (fun i => u i * w i)).
by apply: eq_bigr => i _; case: ifP => // _; rewrite mulr0.
Qed.

(* x B, column by column. *)
Lemma row_process_noise_mx (a_pos a_ang b c : R) (x : 'rV[R]_NS)
    (l : 'I_NS) :
  (x *m process_noise_mx a_pos a_ang b c) 0 l
  = axis_value a_pos a_ang (axis_of l)
    * (x 0 (lshift NZ (axis_of l)) * block_coef b c (lshift NZ (axis_of l)) l
       + x 0 (rshift NZ (axis_of l))
         * block_coef b c (rshift NZ (axis_of l)) l).
Proof.
rewrite mxE big_split_ord /=.
have -> : \sum_(i < NZ) x 0 (lshift NZ i)
             * process_noise_mx a_pos a_ang b c (lshift NZ i) l
          = x 0 (lshift NZ (axis_of l))
            * (axis_value a_pos a_ang (axis_of l)
               * block_coef b c (lshift NZ (axis_of l)) l).
  rewrite -(sum_pick_mul (fun i => x 0 (lshift NZ i))
              (fun i => axis_value a_pos a_ang i
                        * block_coef b c (lshift NZ i) l)).
  by apply: eq_bigr => i _; rewrite mxE axis_of_lshift.
have -> : \sum_(i < NZ) x 0 (rshift NZ i)
             * process_noise_mx a_pos a_ang b c (rshift NZ i) l
          = x 0 (rshift NZ (axis_of l))
            * (axis_value a_pos a_ang (axis_of l)
               * block_coef b c (rshift NZ (axis_of l)) l).
  rewrite -(sum_pick_mul (fun i => x 0 (rshift NZ i))
              (fun i => axis_value a_pos a_ang i
                        * block_coef b c (rshift NZ i) l)).
  by apply: eq_bigr => i _; rewrite mxE axis_of_rshift.
by ring.
Qed.

(* The quadratic form of the process noise model, axis by axis. *)
Lemma quad_process_noise_mx (a_pos a_ang b c : R) (x : 'rV[R]_NS) :
  quad (process_noise_mx a_pos a_ang b c) x
  = \sum_(j < NZ) axis_value a_pos a_ang j
      * (x 0 (lshift NZ j) ^+ 2
         + (c + c) * (x 0 (lshift NZ j) * x 0 (rshift NZ j))
         + b * x 0 (rshift NZ j) ^+ 2).
Proof.
rewrite /quad mxE big_split_ord /= -big_split /=.
apply: eq_bigr => j _; rewrite !row_process_noise_mx !mxE.
rewrite axis_of_lshift axis_of_rshift.
have [-> -> -> ->] := block_coef_shift b c j j.
by ring.
Qed.

Lemma psd_process_noise_mx (a_pos a_ang : R) :
  0 <= a_pos -> 0 <= a_ang -> psd (process_noise_mx a_pos a_ang 20%:R 1).
Proof.
move=> pos_ge0 ang_ge0 x; rewrite quad_process_noise_mx.
apply: sumr_ge0 => j _; apply: mulr_ge0.
  by rewrite /axis_value; case: (split j).
move: (x 0 (lshift NZ j)) (x 0 (rshift NZ j)) => u v.
have -> : u ^+ 2 + (1 + 1) * (u * v) + 20%:R * v ^+ 2
          = (u + v) ^+ 2 + 19%:R * v ^+ 2 by ring.
by rewrite addr_ge0 ?sqr_ge0 // mulr_ge0 ?sqr_ge0 // ler0n.
Qed.

(* ------------------------------------------------------------------- *)
(* The measurement noise set by reset()                                  *)
(* ------------------------------------------------------------------- *)

Lemma exists_axis3 (k : 'I_NZ) :
  [exists i : 'I_3, (k == lshift 3 i) || (k == rshift 3 i)].
Proof.
by apply/existsP; case: (split_ordP k) => i ->; exists i; rewrite eqxx ?orbT.
Qed.

Lemma reset_measurement_noiseE (np na : R) kf :
  measurement_noise_cov kf = 0 ->
  measurement_noise_cov (reset_measurement_noise np na kf)
  = measurement_noise_mx np na.
Proof.
move=> R0; rewrite /reset_measurement_noise.
rewrite (@for_ord_proj _ _ _ _ (@measurement_noise_cov R)
           (fun (i : 'I_3) M =>
              mx_set (mx_set M (lshift 3 i) (lshift 3 i) np)
                (rshift 3 i) (rshift 3 i) na)) //.
apply/matrixP => k l.
rewrite (@for_ord_entries _ _ _ _
           (fun i k l => (k == l) && ((k == lshift 3 i) || (k == rshift 3 i)))
           (fun k _ => axis_value np na k)).
  move=> i M k' l'; rewrite !mxE /axis_value.
  case: (altP (k' =P l')) => [<-|ne_kl] /=; last first.
    have both_false (j : 'I_NZ) : (k' == j) && (l' == j) = false.
      apply/negP => /andP [/eqP k'E /eqP l'E].
      by rewrite k'E l'E eqxx in ne_kl.
    by rewrite !both_false.
  rewrite !andbb; case: (split_ordP k') => i' ->; rewrite !eq_shift //=.
  by rewrite orbF.
rewrite R0 !mxE.
case: (altP (k =P l)) => [_|_] /=; last by rewrite mulr0n; case: existsP => // -[].
by rewrite exists_axis3 mulr1n.
Qed.

Lemma symmetric_measurement_noise_mx (np na : R) :
  symmetric (measurement_noise_mx np na).
Proof. exact: tr_diag_mx. Qed.

Lemma quad_diag_mx n (d : 'rV[R]_n) (x : 'rV[R]_n) :
  quad (diag_mx d) x = \sum_j d 0 j * x 0 j ^+ 2.
Proof.
rewrite /quad mul_mx_diag mxE; apply: eq_bigr => j _.
by rewrite !mxE; ring.
Qed.

Lemma pd_measurement_noise_mx (np na : R) :
  0 < np -> 0 < na -> pd (measurement_noise_mx np na).
Proof.
move=> np_gt0 na_gt0 x x_neq0; rewrite quad_diag_mx.
have d_gt0 j : 0 < (\row_j axis_value np na j) 0 j.
  by rewrite mxE /axis_value; case: (split j).
have [j xj_neq0] : exists j, x 0 j != 0.
  apply/existsP; rewrite -negb_forall; apply: contra x_neq0 => /forallP x0.
  by apply/eqP/rowP => j; rewrite mxE; apply/eqP.
rewrite (bigD1 j) //= ltr_pwDl //.
  by rewrite mulr_gt0 // exprn_even_gt0.
by apply: sumr_ge0 => i _; rewrite mulr_ge0 ?sqr_ge0 // ltW.
Qed.

Lemma pd_psd n (A : 'M[R]_n) : pd A -> psd A.
Proof.
move=> pdA x; case: (altP (x =P 0)) => [->|/pdA /ltW //].
by rewrite /quad mul0mx mul0mx mxE.
Qed.

(* ------------------------------------------------------------------- *)
(* What the loops over kf leave alone                                    *)
(* ------------------------------------------------------------------- *)

Lemma fill_transition_matrix_frame kf (dt : R) :
  let kf' := FTNoIR_Filter_fill_transition_matrix kf dt in
  [/\ measurement_noise_cov kf' = measurement_noise_cov kf,
      state_cov kf' = state_cov kf,
      state_cov_prior kf' = state_cov_prior kf,
      measurement_matrix kf' = measurement_matrix kf &
      process_noise_cov kf' = process_noise_cov kf]
  /\ [/\ state kf' = state kf, state_prior kf' = state_prior kf,
         innovation kf' = innovation kf &
         kalman_gain kf' = kalman_gain kf].
Proof.
by rewrite /FTNoIR_Filter_fill_transition_matrix; do !split;
   apply: (@for_ord_frame _ _ _ _ _ _ kf).
Qed.

Lemma reset_constant_entries_frame kf :
  let kf' := reset_constant_entries kf in
  [/\ measurement_noise_cov kf' = measurement_noise_cov kf,
      state_cov kf' = state_cov kf &
      state_cov_prior kf' = state_cov_prior kf].
Proof.
by rewrite /reset_constant_entries; split;
   apply: (@for_ord_frame _ _ _ _ _ _ kf).
Qed.

Lemma reset_measurement_noise_frame (np na : R) kf :
  let kf' := reset_measurement_noise np na kf in
  state_cov kf' = state_cov kf /\ state_cov_prior kf' = state_cov_prior kf.
Proof.
by rewrite /reset_measurement_noise; split;
   apply: (@for_ord_frame _ _ _ _ _ _ kf).
Qed.

(* ------------------------------------------------------------------- *)
(* The covariance after reset()                                          *)
(* ------------------------------------------------------------------- *)

Lemma reset_covariances self s :
  let self' := FTNoIR_Filter_reset self s in
  [/\ state_cov (kf self') = nominal_process_noise,
      state_cov_prior (kf self') = 0,
      process_noise_cov (kf self') = nominal_process_noise,
      base_cov (kf_adaptive_process_noise_cov self') = nominal_process_noise &
      measurement_noise_cov (kf self')
      = measurement_noise_mx (map_slider_value (noise_pos_slider_value s))
          (map_slider_value (noise_rot_slider_value s))].
Proof.
rewrite /FTNoIR_Filter_reset /=.
rewrite (fill_process_noise_cov_matrix_mx _ off_axis_zero0).
set kf1 := reset_constant_entries _.
set kf2 := reset_measurement_noise _ _ kf1.
have [[noise3 _ prior3 _ _] _] :=
  fill_transition_matrix_frame kf2 (3%:R / 100%:R).
have [_ prior2] := reset_measurement_noise_frame
  (map_slider_value (noise_pos_slider_value s))
  (map_slider_value (noise_rot_slider_value s)) kf1.
have [noise1 _ prior1] := reset_constant_entries_frame
  (KalmanFilter_init (kf self)).
split=> //; first by rewrite prior3 prior2 prior1.
by rewrite noise3 reset_measurement_noiseE // noise1.
Qed.

(* ------------------------------------------------------------------- *)
(* The Kalman step keeps the covariances symmetric                       *)
(* ------------------------------------------------------------------- *)

Local Notation tick := (@tick R).

(* On an invertible matrix, Eigen's inverse() is the inverse. *)
Hypothesis inverse_unit :
  forall A : 'M[R]_NZ, A \in unitmx -> inverse A = invmx A.

(* The slider mapping yields positive noise variances. *)
Hypothesis map_slider_value_gt0 : forall v : R, 0 < map_slider_value v.

Lemma time_update_frame kf :
  let kf' := KalmanFilter_time_update kf in
  [/\ state_cov kf' = state_cov kf,
      measurement_noise_cov kf' = measurement_noise_cov kf &
      state_cov_prior kf'
      = transition_matrix kf *m state_cov kf *m (transition_matrix kf)^T
        + process_noise_cov kf].
Proof. by []. Qed.

Lemma time_update_covariance kf :
  symmetric (state_cov kf) -> psd (state_cov kf) ->
  symmetric (process_noise_cov kf) -> psd (process_noise_cov kf) ->
  let kf' := KalmanFilter_time_update kf in
  symmetric (state_cov_prior kf') /\ psd (state_cov_prior kf').
Proof.
move=> symP psdP symQ psdQ /=; split.
  by apply: symmetricD => //; apply: symmetric_congruence.
by apply: psdD => //; apply: psd_congruence.
Qed.

Lemma measurement_update_covariance kf (measurement : PoseVector) :
  symmetric (state_cov_prior kf) -> psd (state_cov_prior kf) ->
  symmetric (measurement_noise_cov kf) -> pd (measurement_noise_cov kf) ->
  let kf' := KalmanFilter_measurement_update kf measurement in
  symmetric (state_cov kf') /\ psd (state_cov kf').
Proof.
move=> symP psdP symR pdR /=.
set H := measurement_matrix kf; set P := state_cov_prior kf.
set Rm := measurement_noise_cov kf; set S := H *m P *m H^T + Rm.
have symS : symmetric S.
  by apply: symmetricD => //; apply: symmetric_congruence.
have S_unit : S \in unitmx.
  by apply: pd_unitmx; apply: pdD => //; apply: psd_congruence.
rewrite (inverse_unit S_unit); split.
  rewrite /symmetric linearB /= !trmx_mul trmx_inv trmxK symP symS.
  by rewrite !mulmxA.
move=> x; rewrite (joseph_form (P := P) (H := H) (Rm := Rm) S_unit).
rewrite quadD !quad_congruence addr_ge0 //.
exact: pd_psd.
Qed.

(* ------------------------------------------------------------------- *)
(* The invariant of a running filter                                     *)
(* ------------------------------------------------------------------- *)

Lemma psd_nominal_process_noise : psd nominal_process_noise.
Proof.
by apply: psd_process_noise_mx; rewrite mulr_ge0 ?divr_ge0 ?ler0n // -expr2 sqr_ge0.
Qed.

Lemma reset_inv self s : filter_inv (FTNoIR_Filter_reset self s).
Proof.
have [covE priorE _ baseE noiseE] := reset_covariances self s.
have [[_ _ dtE prevE _] _] := reset_fields self s.
split; last first.
  split; last by rewrite dtE.
  rewrite baseE /nominal_process_noise.
  by move=> k l ne_kl; rewrite mxE (negbTE ne_kl).
split.
- by rewrite covE; apply: symmetric_process_noise_mx.
- by rewrite covE; apply: psd_nominal_process_noise.
- by rewrite priorE; apply: symmetric0.
- by rewrite priorE; apply: psd0.
- by rewrite noiseE prevE.
Qed.

Lemma scaling_factor_ge0 (T1 T2 : R) : 0 <= scaling_factor T1 T2.
Proof.
have /andP [lo _] := scaling_factor_bounds T1 T2.
by apply: le_trans lo; rewrite divr_ge0 ?ler0n.
Qed.

Lemma process_noise_model_psd (d : R) :
  0 <= d ->
  psd (process_noise_mx (process_sigma_pos * process_sigma_pos * d)
         (process_simga_rot * process_simga_rot * d) 20%:R 1).
Proof.
by move=> d_ge0; apply: psd_process_noise_mx;
   rewrite mulr_ge0 // -expr2 sqr_ge0.
Qed.

Lemma off_axis_zero_process_noise_mx (a_pos a_ang b c : R) :
  off_axis_zero (process_noise_mx a_pos a_ang b c).
Proof. by move=> k l ne_kl; rewrite mxE (negbTE ne_kl). Qed.

Lemma do_kalman_filter_inv self input (dt : R) (new_input : bool) :
  filter_inv self ->
  filter_inv (FTNoIR_Filter_do_kalman_filter self input dt new_input).1.
Proof.
case: new_input => // -[[symP psdP symPp psdPp noiseE] [base0 dt_ge0]].
pose d := dt_since_last_input self.
pose kf1 := FTNoIR_Filter_fill_transition_matrix (kf self) d.
pose sp := @process_sigma_pos R consts; pose sr := @process_simga_rot R consts.
pose B := process_noise_mx (sp * sp * d) (sr * sr * d) 20%:R 1.
have baseE : FTNoIR_Filter_fill_process_noise_cov_matrix
               (base_cov (kf_adaptive_process_noise_cov self)) d = B.
  exact: fill_process_noise_cov_matrix_mx.
pose sc1 := set_base_cov
              (FTNoIR_Filter_fill_process_noise_cov_matrix (consts := consts)
                 (base_cov (kf_adaptive_process_noise_cov self)) d)
              (kf_adaptive_process_noise_cov self).
pose upd := KalmanProcessNoiseScaler_update (libm := libm) (consts := consts)
              sc1 kf1 d.
pose alpha := scaling_factor (libm := libm) (trace_T1 upd.1 kf1)
                (trace_T2 kf1).
have [[noise1 cov1 prior1 _ _] _] := fill_transition_matrix_frame (kf self) d.
have QE : process_noise_cov upd.2 = alpha *: B by rewrite -baseE.
have cov2 : state_cov upd.2 = state_cov (kf self) by rewrite -cov1.
have noise2 : measurement_noise_cov upd.2
              = measurement_noise_mx (map_slider_value (prev_slider_pos self).1)
                  (map_slider_value (prev_slider_pos self).2).
  by rewrite -noiseE -noise1.
pose kf3 := KalmanFilter_time_update upd.2.
have [symPp3 psdPp3] :
    symmetric (state_cov_prior kf3) /\ psd (state_cov_prior kf3).
  apply: time_update_covariance; rewrite ?cov2 ?QE //.
    exact/symmetricZ/symmetric_process_noise_mx.
  apply: psdZ; first exact: scaling_factor_ge0.
  exact: process_noise_model_psd.
have noise3 : measurement_noise_cov kf3
              = measurement_noise_mx (map_slider_value (prev_slider_pos self).1)
                  (map_slider_value (prev_slider_pos self).2).
  by rewrite -noise2.
pose kf4 := KalmanFilter_measurement_update (eigen := eigen) kf3 input.
have [symP4 psdP4] : symmetric (state_cov kf4) /\ psd (state_cov kf4).
  apply: measurement_update_covariance => //; rewrite noise3.
    exact: symmetric_measurement_noise_mx.
  by apply: pd_measurement_noise_mx; apply: map_slider_value_gt0.
have off : off_axis_zero
             (FTNoIR_Filter_fill_process_noise_cov_matrix
                (base_cov (kf_adaptive_process_noise_cov self)) d).
  by rewrite baseE; apply: off_axis_zero_process_noise_mx.
split; last by split; [exact: off | exact: dt_ge0].
split; [exact: symP4 | exact: psdP4 | exact: symPp3 | exact: psdPp3 |].
exact: noise3.
Qed.

Lemma slider_check_inv self s :
  filter_inv self -> filter_inv (slider_check self s).
Proof. by rewrite /slider_check; case: ifP => // _ _; apply: reset_inv. Qed.

Lemma slider_check_timer self s :
  timer (slider_check self s) = timer self
  /\ (first_run (slider_check self s) = false -> first_run self = false).
Proof.
by rewrite /slider_check; case: ifP.
Qed.

Lemma run_tick_inv (st : FTNoIR_Filter * PoseVector) (t : tick) :
  filter_inv st.1 ->
  (first_run st.1 = false -> timer st.1 <= tick_now t) ->
  let st' := run_tick st t in
  [/\ filter_inv st'.1, timer st'.1 = tick_now t & first_run st'.1 = false].
Proof.
case: st => self output /= inv clock.
rewrite /run_tick /FTNoIR_Filter_filter [(_, _).1]/= [(_, _).2]/=.
have := slider_check_inv (tick_settings t) inv.
have [] := slider_check_timer self (tick_settings t).
move: (slider_check _ _) => checked timerE firstE inv_checked.
case first: (first_run checked).
  by rewrite /filter_after_slider_check first.
rewrite running_tick //.
set self1 := set_timer _ _.
have inv1 : filter_inv self1.
  case: inv_checked => covs [base0 dt_ge0]; split=> //; split=> //.
  rewrite [dt_since_last_input _]/= addr_ge0 //.
  by rewrite /Timer_elapsed_seconds subr_ge0 timerE clock // firstE.
have := do_kalman_filter_inv (tick_input t)
  (Timer_elapsed_seconds (timer checked) (tick_now t))
  (is_new_input checked (tick_input t)) inv1.
have := do_kalman_filter_frame self1 (tick_input t)
  (Timer_elapsed_seconds (timer checked) (tick_now t))
  (is_new_input checked (tick_input t)).
move: (FTNoIR_Filter_do_kalman_filter _ _ _ _) => k.
case=> -[_ timer_k first_k dt_k _] [prev_k _ _] [covs [base0 dt_ge0]].
split; last by rewrite [first_run _]/= first_k.
  split; first by [].
  split; first by [].
  by rewrite [dt_since_last_input _]/=; case: ifP => // _; rewrite dt_k.
by rewrite [timer _]/= timer_k.
Qed.

Lemma run_inv (ticks : seq tick) (st : FTNoIR_Filter * PoseVector) :
  filter_inv st.1 ->
  (if first_run st.1 then sorted <=%R [seq tick_now t | t <- ticks]
   else path <=%R (timer st.1) [seq tick_now t | t <- ticks]) ->
  filter_inv (foldl run_tick st ticks).1.
Proof.
elim: ticks st => [|t ticks IH] st //= inv clock.
have clock_t : first_run st.1 = false -> timer st.1 <= tick_now t.
  by move=> first; move: clock; rewrite first => /andP [].
have [inv' timer' first'] := run_tick_inv inv clock_t.
apply: IH => //; rewrite first' timer'.
by move: clock; case: ifP => // _ /andP [].
Qed.

(** C3: a filter is constructed (reset()) and then called on any finite
    sequence of ticks whose clock readings do not decrease.  The slider
    mapping gives positive noise variances and inverse() inverts invertible
    matrices.  Then, over exact arithmetic, state_cov and state_cov_prior
    are symmetric (and positive semi-definite) at the end of the sequence,
    hence after every measurement_update of the run; time_update does not
    write state_cov and measurement_update does not write state_cov_prior,
    so both are symmetric after every time_update as well. *)
Theorem state_cov_stays_symmetric (members : FTNoIR_Filter) s0 output
    (ticks : seq tick) :
  sorted <=%R [seq tick_now t | t <- ticks] ->
  let r := run members s0 output ticks in
  [/\ symmetric (state_cov (kf r.1)),
      symmetric (state_cov_prior (kf r.1)),
      psd (state_cov (kf r.1)) &
      psd (state_cov_prior (kf r.1))]
  /\ [/\ forall kf, state_cov (KalmanFilter_time_update kf) = state_cov kf &
         forall kf z, state_cov_prior (KalmanFilter_measurement_update kf z)
                      = state_cov_prior kf].
Proof.
move=> clock r; split=> //.
have [] : filter_inv r.1; last by case.
apply: run_inv; first exact: reset_inv.
by have [[-> _ _ _ _] _] := reset_fields members s0.
Qed.

(* ------------------------------------------------------------------- *)
(* Isotropic states: the matrix operations on the numbers                *)
(* ------------------------------------------------------------------- *)

Local Notation M2 := (@M2 R).
Local Notation IsoKalman := (@IsoKalman R).

Lemma iso_mxM (a b : M2) : iso_mx a *m iso_mx b = iso_mx (M2_mul a b).
Proof. by rewrite /iso_mx mulmx_block -!scalar_mxM -!raddfD. Qed.

Lemma iso_mxD (a b : M2) : iso_mx a + iso_mx b = iso_mx (M2_add a b).
Proof. by rewrite /iso_mx add_block_mx -!raddfD. Qed.

Lemma iso_mxB (a b : M2) : iso_mx a - iso_mx b = iso_mx (M2_sub a b).
Proof.
by rewrite /iso_mx opp_block_mx add_block_mx -!raddfN -!raddfD.
Qed.

Lemma iso_mxZ (c : R) (a : M2) : c *: iso_mx a = iso_mx (M2_scale c a).
Proof. by rewrite /iso_mx scale_block_mx !scale_scalar_mx. Qed.

Lemma iso_mx_tr (a : M2) : (iso_mx a)^T = iso_mx (M2_tr a).
Proof. by rewrite /iso_mx tr_block_mx !tr_scalar_mx. Qed.

Lemma iso_mx0 : iso_mx (MkM2 (0 : R) 0 0 0) = 0.
Proof. by rewrite /iso_mx /= !raddf0 block_mx0. Qed.

Lemma iso_mx1 : iso_mx (MkM2 (1 : R) 0 0 1) = 1%:M.
Proof. by rewrite /iso_mx /= raddf0 -scalar_mx_block. Qed.

Lemma const_mx_zero m n : const_mx 0 = 0 :> 'M[R]_(m, n).
Proof. by apply/matrixP => k l; rewrite !mxE. Qed.

Lemma iso_vec0 : iso_vec (0 : R, 0) = 0.
Proof. by rewrite /iso_vec /= !const_mx_zero col_mx0. Qed.

Lemma iso_gain0 : iso_gain (0 : R, 0) = 0.
Proof. by rewrite /iso_gain /= raddf0 col_mx0. Qed.

Lemma iso_mx_vec (a : M2) (x : R * R) :
  iso_mx a *m iso_vec x
  = iso_vec (m11 a * x.1 + m12 a * x.2, m21 a * x.1 + m22 a * x.2).
Proof.
rewrite /iso_mx /iso_vec mul_block_col !mul_scalar_mx !scalemx_const /=.
by congr col_mx; apply/matrixP => k l; rewrite !mxE.
Qed.

Lemma selector_iso_mx (a : M2) :
  pose_selector *m iso_mx a = row_mx (m11 a)%:M (m12 a)%:M.
Proof.
by rewrite /pose_selector /iso_mx mul_row_block !mul1mx !mul0mx !addr0.
Qed.

Lemma iso_mx_selector_tr (a : M2) :
  iso_mx a *m (pose_selector : 'M[R]_(NZ, NS))^T
  = iso_gain (m11 a, m21 a).
Proof.
rewrite /pose_selector /iso_mx /iso_gain tr_row_mx trmx1 trmx0.
by rewrite mul_block_col !mulmx1 !mulmx0 !addr0.
Qed.

Lemma selector_iso_mx_selector_tr (a : M2) :
  pose_selector *m iso_mx a *m (pose_selector : 'M[R]_(NZ, NS))^T
  = (m11 a)%:M.
Proof.
rewrite selector_iso_mx /pose_selector tr_row_mx trmx1 trmx0.
by rewrite mul_row_col mulmx1 mulmx0 addr0.
Qed.

Lemma selector_iso_vec (x : R * R) :
  pose_selector *m iso_vec x = const_mx x.1.
Proof.
by rewrite /pose_selector /iso_vec mul_row_col mul1mx mul0mx addr0.
Qed.

Lemma iso_gain_scalar (k : R * R) (s : R) :
  iso_gain k *m s%:M = iso_gain (k.1 * s, k.2 * s).
Proof. by rewrite /iso_gain mul_col_mx -!scalar_mxM. Qed.

Lemma iso_gain_selector (k : R * R) :
  iso_gain k *m pose_selector = iso_mx (MkM2 k.1 0 k.2 0).
Proof.
by rewrite /iso_gain /pose_selector /iso_mx mul_col_row !mulmx1 !mulmx0 !raddf0.
Qed.

Lemma iso_gain_const (k : R * R) (y : R) :
  iso_gain k *m (const_mx y : 'cV[R]_NZ) = iso_vec (k.1 * y, k.2 * y).
Proof.
by rewrite /iso_gain /iso_vec mul_col_mx !mul_scalar_mx !scalemx_const.
Qed.

Lemma iso_vecD (x y : R * R) :
  iso_vec x + iso_vec y = iso_vec (x.1 + y.1, x.2 + y.2).
Proof.
rewrite /iso_vec add_col_mx /=.
by congr col_mx; apply/matrixP => k l; rewrite !mxE.
Qed.

Lemma const_mxB m n (x y : R) :
  (const_mx x : 'M[R]_(m, n)) - const_mx y = const_mx (x - y).
Proof. by apply/matrixP => k l; rewrite !mxE. Qed.

Lemma time_update_iso (i : IsoKalman) :
  KalmanFilter_time_update (kf_of_iso i) = kf_of_iso (iso_time_update i).
Proof.
rewrite /KalmanFilter_time_update /kf_of_iso /set_state_prior
        /set_state_cov_prior /iso_time_update /=.
rewrite iso_mx_vec iso_mx_tr !iso_mxM iso_mxD /=.
by rewrite !mul1r !mul0r !add0r.
Qed.

Lemma measurement_update_iso (i : IsoKalman) (z : R) :
  iso_S i != 0 ->
  KalmanFilter_measurement_update (kf_of_iso i) (const_mx z)
  = kf_of_iso (iso_measurement_update i z).
Proof.
move=> s_neq0.
rewrite /KalmanFilter_measurement_update /kf_of_iso /set_kalman_gain
        /set_innovation /set_state /set_state_cov /iso_measurement_update /=.
rewrite selector_iso_mx_selector_tr -raddfD /= -/(iso_S i).
have S_unit : ((iso_S i)%:M : 'M[R]_NZ) \in unitmx.
  by rewrite unitmxE det_scalar unitrX // unitfE.
rewrite (inverse_unit S_unit).
rewrite invmx_scalar iso_mx_selector_tr iso_gain_scalar /=.
rewrite selector_iso_vec const_mxB iso_gain_const iso_vecD /=.
by rewrite iso_gain_selector iso_mxM iso_mxB.
Qed.

(* ------------------------------------------------------------------- *)
(* Isotropic states: what reset() builds                                 *)
(* ------------------------------------------------------------------- *)

Local Notation IsoFilter := (@IsoFilter R).

Lemma process_noise_mx_iso (a b c : R) :
  process_noise_mx a a b c = iso_mx (MkM2 a (a * c) (a * c) (a * b)).
Proof.
apply/matrixP => k l; rewrite mxE /iso_mx /=.
have axisE j : axis_value a a j = a by rewrite /axis_value; case: (split j).
rewrite axisE.
case: (split_ordP k) => k' ->; case: (split_ordP l) => l' ->;
  rewrite ?axis_of_lshift ?axis_of_rshift;
  have [e1 e2 e3 e4] := block_coef_shift b c k' l';
  rewrite ?e1 ?e2 ?e3 ?e4 ?block_mxEul ?block_mxEur ?block_mxEdl ?block_mxEdr
          !mxE ?mulr1;
  by case: eqP => _; rewrite ?mulr1n ?mulr0n.
Qed.

Lemma measurement_noise_mx_iso (r : R) : measurement_noise_mx r r = r%:M.
Proof.
apply/matrixP => k l; rewrite !mxE /axis_value.
by case: (split k).
Qed.

(* The loops over kf write the members they name and no other. *)
Lemma fill_transition_matrix_set kf (dt : R) :
  FTNoIR_Filter_fill_transition_matrix kf dt
  = set_transition_matrix
      (for_ord (fun (i : 'I_NZ) M => mx_set M (lshift NZ i) (rshift NZ i) dt)
         (transition_matrix kf)) kf.
Proof.
rewrite /FTNoIR_Filter_fill_transition_matrix /for_ord.
elim: (enum 'I_NZ) kf => [|i s IH] kf /=; first by case: kf.
by rewrite IH.
Qed.

Lemma reset_constant_entries_set kf :
  reset_constant_entries kf
  = set_measurement_matrix
      (for_ord (fun (i : 'I_NZ) M => mx_set M i (lshift NZ i) 1)
         (measurement_matrix kf))
      (set_transition_matrix
         (for_ord (fun (i : 'I_NZ) M =>
                     mx_set (mx_set M (lshift NZ i) (lshift NZ i) 1)
                       (rshift NZ i) (rshift NZ i) 1)
            (transition_matrix kf)) kf).
Proof.
rewrite /reset_constant_entries /for_ord.
elim: (enum 'I_NZ) kf => [|i s IH] kf /=; first by case: kf.
by rewrite IH.
Qed.

Lemma reset_measurement_noise_set (np na : R) kf :
  reset_measurement_noise np na kf
  = set_measurement_noise_cov
      (measurement_noise_cov (reset_measurement_noise np na kf)) kf.
Proof.
rewrite /reset_measurement_noise /for_ord.
elim: (enum 'I_3) kf => [|i s IH] kf /=; first by case: kf.
by rewrite IH.
Qed.

Lemma exists_shift_pair (k l : 'I_NZ) :
  [exists i : 'I_NZ, (lshift NZ k == lshift NZ i :> 'I_NS)
                     && (rshift NZ l == rshift NZ i :> 'I_NS)] = (k == l).
Proof.
apply/existsP/eqP => [[i]|->]; last by exists l; rewrite !eqxx.
by rewrite !eq_shift => /andP [/eqP -> /eqP ->].
Qed.

(* fill_transition_matrix on [1 d; 0 1] gives [1 dt; 0 1]. *)
Lemma transition_entries (d dt : R) :
  for_ord (fun (i : 'I_NZ) M => mx_set M (lshift NZ i) (rshift NZ i) dt)
    (iso_mx (MkM2 1 d 0 1))
  = iso_mx (MkM2 1 dt 0 1).
Proof.
apply/matrixP => k l.
rewrite (@for_ord_entries _ _ _ _
           (fun i k l => (k == lshift NZ i) && (l == rshift NZ i))
           (fun _ _ => dt)).
  by move=> i M k' l'; rewrite mxE.
rewrite /iso_mx /=.
case: (split_ordP k) => k' ->; case: (split_ordP l) => l' ->.
- case: existsP => [[i]|_]; first by rewrite !eq_shift andbF.
  by rewrite !block_mxEul.
- rewrite exists_shift_pair !block_mxEur !mxE.
  by case: eqP => _; rewrite ?mulr1n ?mulr0n.
- case: existsP => [[i]|_]; first by rewrite !eq_shift.
  by rewrite !block_mxEdl.
- case: existsP => [[i]|_]; first by rewrite !eq_shift.
  by rewrite !block_mxEdr.
Qed.

Lemma fill_transition_matrix_iso (i : IsoKalman) (dt : R) :
  FTNoIR_Filter_fill_transition_matrix (kf_of_iso i) dt
  = kf_of_iso (MkIsoKalman (iso_r i) (iso_Q i) (iso_K i) (iso_P i) (iso_Pp i)
                 dt (iso_x i) (iso_xp i) (iso_y i)).
Proof.
by rewrite fill_transition_matrix_set /kf_of_iso /set_transition_matrix /=
           transition_entries.
Qed.

(* The constant entries reset() writes into the zero matrices of init(). *)
Lemma reset_transition_entries :
  for_ord (fun (i : 'I_NZ) (M : 'M[R]_NS) =>
             mx_set (mx_set M (lshift NZ i) (lshift NZ i) 1)
               (rshift NZ i) (rshift NZ i) 1) 0
  = iso_mx (MkM2 1 0 0 1).
Proof.
apply/matrixP => k l.
rewrite (@for_ord_entries _ _ _ _
           (fun i k l => ((k == lshift NZ i) && (l == lshift NZ i))
                         || ((k == rshift NZ i) && (l == rshift NZ i)))
           (fun _ _ => 1)).
  move=> i M k' l'; rewrite !mxE.
  by case: ((k' == rshift NZ i) && _); rewrite ?orbT ?orbF.
rewrite iso_mx1 !mxE.
case: (altP (k =P l)) => [<-|ne_kl].
  rewrite mulr1n; case: existsP => // -[].
  by case: (split_ordP k) => k' ->; exists k'; rewrite !eqxx ?orbT.
rewrite mulr0n; case: existsP => // -[i] /orP [] /andP [/eqP kE /eqP lE];
  by rewrite kE lE eqxx in ne_kl.
Qed.

Lemma reset_measurement_entries :
  for_ord (fun (i : 'I_NZ) (M : 'M[R]_(NZ, NS)) => mx_set M i (lshift NZ i) 1) 0
  = pose_selector.
Proof.
apply/matrixP => k l.
rewrite (@for_ord_entries _ _ _ _
           (fun i k l => (k == i) && (l == lshift NZ i)) (fun _ _ => 1)).
  by move=> i M k' l'; rewrite mxE.
rewrite /pose_selector; case: (split_ordP l) => l' ->.
  rewrite row_mxEl !mxE.
  case: (altP (k =P l')) => [->|ne_kl].
    by rewrite mulr1n; case: existsP => // -[]; exists l'; rewrite !eqxx.
  rewrite mulr0n; case: existsP => // -[i] /andP [/eqP kE].
  by rewrite eq_shift => /eqP lE; rewrite kE lE eqxx in ne_kl.
rewrite row_mxEr !mxE; case: existsP => // -[i].
by rewrite eq_shift andbF.
Qed.

Hypothesis process_sigma_same : process_simga_rot = process_sigma_pos :> R.

Lemma nominal_process_noise_iso :
  nominal_process_noise = iso_mx (iso_process_noise (3%:R / 100%:R)).
Proof.
by rewrite /nominal_process_noise process_sigma_same process_noise_mx_iso.
Qed.

Lemma fill_process_noise_cov_matrix_iso (a : M2) (dt : R) :
  FTNoIR_Filter_fill_process_noise_cov_matrix (iso_mx a) dt
  = iso_mx (iso_process_noise dt).
Proof.
have off_axis : off_axis_zero (iso_mx a).
  move=> k l; rewrite /iso_mx.
  case: (split_ordP k) => k' ->; case: (split_ordP l) => l' ->;
    rewrite ?axis_of_lshift ?axis_of_rshift
            ?block_mxEul ?block_mxEur ?block_mxEdl ?block_mxEdr !mxE;
    by move=> /negbTE ->; rewrite mulr0n.
rewrite (fill_process_noise_cov_matrix_mx _ off_axis).
by rewrite process_sigma_same process_noise_mx_iso.
Qed.

(* The Kalman filter reset() leaves, both sliders at v. *)
Lemma reset_kf_iso kf (r : R) (B : M2) :
  set_state_cov (iso_mx B)
    (set_process_noise_cov (iso_mx B)
       (FTNoIR_Filter_fill_transition_matrix
          (reset_measurement_noise r r
             (reset_constant_entries (KalmanFilter_init kf)))
          (3%:R / 100%:R)))
  = kf_of_iso (MkIsoKalman r B (0, 0) B (MkM2 0 0 0 0) (3%:R / 100%:R)
                 (0, 0) (0, 0) 0).
Proof.
have [noise0 _ _] := reset_constant_entries_frame (KalmanFilter_init kf).
rewrite fill_transition_matrix_set reset_measurement_noise_set.
rewrite (reset_measurement_noiseE r r noise0) reset_constant_entries_set.
cbv [KalmanFilter_init set_state_cov set_process_noise_cov
     set_transition_matrix set_measurement_noise_cov set_measurement_matrix
     kf_of_iso measurement_noise_cov process_noise_cov kalman_gain
     measurement_matrix state_cov state_cov_prior transition_matrix state
     state_prior innovation iso_r iso_Q iso_K iso_P iso_Pp iso_d iso_x iso_xp
     iso_y].
rewrite reset_transition_entries reset_measurement_entries transition_entries.
by rewrite measurement_noise_mx_iso iso_mx0 iso_vec0 iso_gain0 const_mx_zero.
Qed.

(* reset() with both sliders at v builds an isotropic filter. *)
Lemma reset_iso self (i : IsoFilter) (v : R) :
  timer self = iso_timer i ->
  FTNoIR_Filter_reset self (Settings v v) = filter_of_iso (iso_reset i v).
Proof.
move=> timerE.
have baseE : FTNoIR_Filter_fill_process_noise_cov_matrix 0 (3%:R / 100%:R)
             = iso_mx (iso_process_noise (3%:R / 100%:R)).
  by rewrite -iso_mx0 fill_process_noise_cov_matrix_iso.
rewrite /FTNoIR_Filter_reset last_input_loop.
cbv [KalmanProcessNoiseScaler_init set_base_cov base_cov
     innovation_cov_estimate DeadzoneFilter_reset noise_pos_slider_value
     noise_rot_slider_value fst snd].
rewrite baseE reset_kf_iso timerE.
by rewrite /filter_of_iso /iso_reset [iso_kf _]/= !const_mx_zero.
Qed.

(* ------------------------------------------------------------------- *)
(* Isotropic states: one call of filter()                                *)
(* ------------------------------------------------------------------- *)

Lemma const_mx_outer (y : R) :
  (const_mx y : 'cV[R]_NZ) *m (const_mx y : 'cV[R]_NZ)^T = const_mx (y * y).
Proof.
by apply/matrixP => k l; rewrite !mxE big_ord_recl big_ord0 addr0 !mxE.
Qed.

Lemma const_mx_combine m n (a b x y : R) :
  a *: (const_mx x : 'M[R]_(m, n)) + b *: const_mx y
  = const_mx (a * x + b * y).
Proof. by apply/matrixP => k l; rewrite !mxE. Qed.

Lemma trace_const_scalar (e r : R) :
  \tr (const_mx e - r%:M : 'M[R]_NZ) = (e - r) *+ NZ.
Proof.
rewrite /mxtrace -[in RHS](card_ord NZ) -sumr_const.
by apply: eq_bigr => k _; rewrite !mxE eqxx mulr1n.
Qed.

Lemma scaler_update_iso (k : IsoKalman) (base : M2) (e dt : R) :
  KalmanProcessNoiseScaler_update (MkScaler (iso_mx base) (const_mx e))
    (kf_of_iso k) dt
  = (MkScaler (iso_mx base) (const_mx (iso_scaler_update k base e dt).1),
     kf_of_iso (iso_scaler_update k base e dt).2).
Proof.
rewrite /KalmanProcessNoiseScaler_update /updated_innovation_cov_estimate
        /trace_T1 /trace_T2 /set_innovation_cov_estimate
        /set_process_noise_cov /iso_scaler_update.
cbv [kf_of_iso measurement_noise_cov process_noise_cov kalman_gain
     measurement_matrix state_cov state_cov_prior transition_matrix state
     state_prior innovation base_cov innovation_cov_estimate fst snd
     iso_r iso_Q iso_K iso_P iso_Pp iso_d iso_x iso_xp iso_y].
rewrite const_mx_outer const_mx_combine trace_const_scalar.
by rewrite selector_iso_mx_selector_tr mxtrace_scalar iso_mxZ.
Qed.

Lemma head6_iso_vec (x : R * R) : head6 (iso_vec x) = const_mx x.1.
Proof. by apply/colP => k; rewrite /head6 mxE /iso_vec col_mxEu !mxE. Qed.

Lemma variance_of_iso (k : IsoKalman) :
  variance_of (kf_of_iso k) = const_mx (m11 (iso_P k)).
Proof.
apply/colP => j; rewrite /variance_of /head6 /diagonal mxE mxE.
by rewrite [state_cov _]/= /iso_mx block_mxEul !mxE eqxx mulr1n.
Qed.

Lemma cwiseMin_const (a b : R) :
  cwiseMin (const_mx a) (const_mx b) = const_mx (std_min a b).
Proof. by apply/colP => j; rewrite !mxE. Qed.

Lemma deadzone_size_const (a b : R) :
  deadzone_size (const_mx a) (const_mx b)
  = const_mx (sqrt (a - b) * deadzone_scale).
Proof. by apply/colP => j; rewrite !mxE. Qed.

Lemma DeadzoneFilter_filter_const (l dz x : R) :
  DeadzoneFilter_filter (MkDeadzone (const_mx l) (const_mx dz)) (const_mx x)
  = (MkDeadzone (const_mx (deadzone_axis l dz x)) (const_mx dz),
     const_mx (deadzone_axis l dz x)).
Proof.
rewrite DeadzoneFilter_filterE /=.
by congr (MkDeadzone _ _, _); apply/colP => j; rewrite !mxE.
Qed.

Lemma const_mx_neq (a b : R) :
  ((const_mx a : PoseVector) != const_mx b) = (a != b).
Proof.
congr (~~ _); apply/eqP/eqP => [/colP /(_ ord0)|-> //].
by rewrite !mxE.
Qed.

Lemma is_new_input_iso (i : IsoFilter) (z : R) :
  is_new_input (filter_of_iso i) (const_mx z) = (z != iso_last_input i).
Proof. by rewrite /is_new_input vector_neqE const_mx_neq. Qed.

Lemma do_kalman_filter_iso (i : IsoFilter) (z dt : R) (new_input : bool) :
  (new_input -> iso_S (iso_predict i).2 != 0) ->
  FTNoIR_Filter_do_kalman_filter (filter_of_iso i) (const_mx z) dt new_input
  = (filter_of_iso (iso_do_kalman_filter i z new_input).1,
     const_mx (iso_do_kalman_filter i z new_input).2).
Proof.
move=> S_neq0.
rewrite /FTNoIR_Filter_do_kalman_filter /iso_do_kalman_filter.
case: new_input S_neq0 => [/(_ isT) S_neq0|_]; last by rewrite head6_iso_vec.
cbv [filter_of_iso kf kf_adaptive_process_noise_cov dz_filter timer first_run
     dt_since_last_input last_input prev_slider_pos minimal_state_var
     set_kf set_kf_adaptive_process_noise_cov set_base_cov base_cov
     innovation_cov_estimate].
rewrite fill_transition_matrix_iso fill_process_noise_cov_matrix_iso.
rewrite scaler_update_iso.
cbv [fst snd].
rewrite time_update_iso.
rewrite (measurement_update_iso _ S_neq0).
by rewrite [state _]/= head6_iso_vec.
Qed.

Lemma slider_check_iso (i : IsoFilter) (v : R) :
  slider_check (filter_of_iso i) (Settings v v)
  = filter_of_iso (if iso_slider i != v then iso_reset i v else i).
Proof.
rewrite /slider_check /sliders_changed [prev_slider_pos _]/=.
rewrite [noise_pos_slider_value _]/= [noise_rot_slider_value _]/= orbb.
by case: ifP => // _; apply: reset_iso.
Qed.

(* On an isotropic filter, with both sliders at v and the pose z on every
   axis, filter() does on every axis what iso_filter does on the numbers. *)
Lemma filter_iso (i : IsoFilter) (v now z o : R) :
  iso_filter_S i v now z != 0 ->
  FTNoIR_Filter_filter (filter_of_iso i) (Settings v v) now (const_mx z)
    (const_mx o)
  = (filter_of_iso (iso_filter i v now z o).1,
     const_mx (iso_filter i v now z o).2).
Proof.
move=> S_neq0; rewrite /FTNoIR_Filter_filter slider_check_iso.
move: S_neq0; rewrite /iso_filter_S /iso_filter.
move: (if iso_slider i != v then _ else _) => j; cbv zeta.
set j1 := MkIsoFilter _ _ _ _ _ now (iso_first_run j) _ _ _ _.
case first_j: (iso_first_run j) => S_neq0.
  by rewrite /filter_after_slider_check [first_run _]/= first_j.
rewrite running_tick // is_new_input_iso.
have {}S_neq0 : z != iso_last_input j -> iso_S (iso_predict j1).2 != 0.
  by move=> new_input; move: S_neq0; rewrite (negbTE new_input).
have -> : set_timer now (set_dt_since_last_input
            (dt_since_last_input (filter_of_iso j)
             + Timer_elapsed_seconds (timer (filter_of_iso j)) now)
            (filter_of_iso j)) = filter_of_iso j1 by [].
rewrite (do_kalman_filter_iso _ _ S_neq0).
move: (iso_do_kalman_filter j1 z _) => k.
rewrite [kf _]/= variance_of_iso [minimal_state_var _]/= cwiseMin_const.
rewrite deadzone_size_const [dz_filter _]/= /set_dz_size [last_output _]/=.
rewrite DeadzoneFilter_filter_const.
by case: ifP.
Qed.

(* ===================================================================== *)
(* Further properties of kalman.cpp                                       *)
(* ===================================================================== *)

(* ------------------------------------------------------------------- *)
(* reset()                                                               *)
(* ------------------------------------------------------------------- *)

Lemma scalar_mx_zero n : (0 : R)%:M = 0 :> 'M[R]_n.
Proof. by rewrite raddf0. Qed.

(* The Kalman filter reset() leaves, member by member. *)
Lemma reset_kf self s :
  kf (FTNoIR_Filter_reset self s)
  = MkKalmanFilter
      (measurement_noise_mx (map_slider_value (noise_pos_slider_value s))
         (map_slider_value (noise_rot_slider_value s)))
      nominal_process_noise 0 pose_selector nominal_process_noise 0
      (iso_mx (MkM2 1 (3%:R / 100%:R) 0 1)) 0 0 0.
Proof.
have nominalE : FTNoIR_Filter_fill_process_noise_cov_matrix 0 (3%:R / 100%:R)
                = nominal_process_noise.
  by rewrite (fill_process_noise_cov_matrix_mx _ off_axis_zero0).
have [noise0 _ _] := reset_constant_entries_frame (KalmanFilter_init (kf self)).
rewrite /FTNoIR_Filter_reset.
cbv [kf KalmanProcessNoiseScaler_init set_base_cov base_cov
     innovation_cov_estimate].
rewrite nominalE fill_transition_matrix_set reset_measurement_noise_set.
rewrite (reset_measurement_noiseE _ _ noise0) reset_constant_entries_set.
cbv [KalmanFilter_init set_state_cov set_process_noise_cov
     set_transition_matrix set_measurement_noise_cov set_measurement_matrix
     measurement_noise_cov process_noise_cov kalman_gain
     measurement_matrix state_cov state_cov_prior transition_matrix state
     state_prior innovation].
by rewrite reset_transition_entries reset_measurement_entries
           transition_entries.
Qed.

(** X1: what reset() builds.  Whatever the object held, after reset() the
    transition matrix is [I 0.03 I; 0 I], the measurement matrix is [I 0],
    the measurement noise is diagonal with the mapped position slider on the
    three translation axes and the mapped rotation slider on the three
    rotation axes, the process noise, the state covariance and the scaler's
    base covariance are the process-noise model at dt = 0.03, and the prior
    covariance, the gain, the state, the prior state, the innovation and the
    innovation covariance estimate are zero. *)
Theorem reset_builds self s :
  let self' := FTNoIR_Filter_reset self s in
  let model := process_noise_mx
                 (process_sigma_pos * process_sigma_pos * (3%:R / 100%:R))
                 (process_simga_rot * process_simga_rot * (3%:R / 100%:R))
                 20%:R 1 in
  [/\ transition_matrix (kf self')
      = block_mx 1%:M (3%:R / 100%:R)%:M 0 1%:M,
      measurement_matrix (kf self') = row_mx 1%:M 0,
      measurement_noise_cov (kf self')
      = diag_mx (\row_j axis_value
                   (map_slider_value (noise_pos_slider_value s))
                   (map_slider_value (noise_rot_slider_value s)) j),
      process_noise_cov (kf self') = model &
      state_cov (kf self') = model]
  /\ [/\ state_cov_prior (kf self') = 0,
         kalman_gain (kf self') = 0,
         state (kf self') = 0,
         state_prior (kf self') = 0 &
         innovation (kf self') = 0]
  /\ [/\ base_cov (kf_adaptive_process_noise_cov self') = model &
         innovation_cov_estimate (kf_adaptive_process_noise_cov self') = 0].
Proof.
move=> self' model; rewrite /self' reset_kf.
have [_ _ _ baseE _] := reset_covariances self s.
split; last by split=> //; split=> //; rewrite baseE.
by split=> //; rewrite [transition_matrix _]/= /iso_mx /= scalar_mx_zero.
Qed.

(** X2: reset() forgets.  A reset() after a reset() with other sliders gives
    what the second alone gives; reset() keeps the timer, and right after it
    the slider check of filter() finds nothing changed. *)
Theorem reset_forgets self s s' :
  [/\ FTNoIR_Filter_reset (FTNoIR_Filter_reset self s') s
      = FTNoIR_Filter_reset self s,
      timer (FTNoIR_Filter_reset self s) = timer self &
      sliders_changed (FTNoIR_Filter_reset self s) s = false].
Proof.
split; last exact: sliders_changed_reset.
  by apply: reset_overwrites; have [_ [-> _]] := reset_fields self s'.
by have [_ [-> _]] := reset_fields self s.
Qed.

(* ------------------------------------------------------------------- *)
(* fill_transition_matrix and fill_process_noise_cov_matrix              *)
(* ------------------------------------------------------------------- *)

Lemma fill_transition_matrix_loop (M : 'M[R]_NS) (dt : R) (k l : 'I_NS) :
  for_ord (fun (i : 'I_NZ) M => mx_set M (lshift NZ i) (rshift NZ i) dt) M k l
  = if [exists i : 'I_NZ, (k == lshift NZ i) && (l == rshift NZ i)] then dt
    else M k l.
Proof.
rewrite (@for_ord_entries _ _ _ _
           (fun i k l => (k == lshift NZ i) && (l == rshift NZ i))
           (fun _ _ => dt)) //.
by move=> i M' k' l'; rewrite mxE.
Qed.

(** X3: fill_transition_matrix(dt) writes the six entries (i, i + 6) of the
    transition matrix and nothing else: the diagonal of the upper right
    block becomes dt, every other entry of the matrix and every other member
    of the Kalman filter keeps its value; a second call overwrites the
    first. *)
Theorem fill_transition_matrix_writes kf (dt dt' : R) :
  let kf' := FTNoIR_Filter_fill_transition_matrix kf dt in
  [/\ forall i j : 'I_NZ,
        transition_matrix kf' (lshift NZ i) (rshift NZ j)
        = if i == j then dt
          else transition_matrix kf (lshift NZ i) (rshift NZ j),
      forall (k : 'I_NS) (j : 'I_NZ),
        transition_matrix kf' k (lshift NZ j)
        = transition_matrix kf k (lshift NZ j),
      forall i j : 'I_NZ,
        transition_matrix kf' (rshift NZ i) (rshift NZ j)
        = transition_matrix kf (rshift NZ i) (rshift NZ j),
      kf' = set_transition_matrix (transition_matrix kf') kf &
      FTNoIR_Filter_fill_transition_matrix
        (FTNoIR_Filter_fill_transition_matrix kf dt') dt
      = kf'].
Proof.
move=> kf'; rewrite /kf' !fill_transition_matrix_set.
split=> [i j|k j|i j||].
- rewrite [transition_matrix _]/= fill_transition_matrix_loop.
  by rewrite exists_shift_pair.
- rewrite [transition_matrix _]/= fill_transition_matrix_loop.
  by case: existsP => // -[i]; rewrite !eq_shift andbF.
- rewrite [transition_matrix _]/= fill_transition_matrix_loop.
  by case: existsP => // -[i']; rewrite !eq_shift.
- by [].
- have overwrite (M : 'M[R]_NS) :
      for_ord (fun (i : 'I_NZ) M => mx_set M (lshift NZ i) (rshift NZ i) dt)
        (for_ord (fun (i : 'I_NZ) M =>
                    mx_set M (lshift NZ i) (rshift NZ i) dt') M)
      = for_ord (fun (i : 'I_NZ) M => mx_set M (lshift NZ i) (rshift NZ i) dt)
          M.
    apply/matrixP => k l; rewrite !fill_transition_matrix_loop.
    by case: [exists _, _].
  by rewrite [transition_matrix (set_transition_matrix _ _)]/= overwrite.
Qed.

(** X4: fill_process_noise_cov_matrix(target, dt) writes, for each of the six
    axes i, the four entries (i, i), (i, i + 6), (i + 6, i), (i + 6, i + 6)
    with a, a c, a c, a b (a = sigma^2 dt with the position sigma on axes
    0..2 and the rotation sigma on axes 3..5, b = 20, c = 1); every entry
    whose row and column belong to different axes keeps its value, and a
    second call overwrites the first. *)
Theorem fill_process_noise_cov_matrix_writes (M : 'M[R]_NS) (dt dt' : R) :
  let M' := FTNoIR_Filter_fill_process_noise_cov_matrix M dt in
  let a i := axis_value (process_sigma_pos * process_sigma_pos * dt)
               (process_simga_rot * process_simga_rot * dt) i in
  [/\ forall i : 'I_NZ,
        [/\ M' (lshift NZ i) (lshift NZ i) = a i,
            M' (lshift NZ i) (rshift NZ i) = a i * 1,
            M' (rshift NZ i) (lshift NZ i) = a i * 1 &
            M' (rshift NZ i) (rshift NZ i) = a i * 20%:R],
      forall k l : 'I_NS, axis_of k != axis_of l -> M' k l = M k l &
      FTNoIR_Filter_fill_process_noise_cov_matrix
        (FTNoIR_Filter_fill_process_noise_cov_matrix M dt') dt
      = M'].
Proof.
move=> M' a; split=> [i|k l ne_kl|].
- rewrite /M' !fill_process_noise_cov_matrixE !mxE.
  rewrite !axis_of_lshift !axis_of_rshift !eqxx.
  have [-> -> -> ->] := block_coef_shift 20%:R (1 : R) i i.
  by rewrite mulr1.
- by rewrite /M' fill_process_noise_cov_matrixE (negbTE ne_kl).
- apply/matrixP => k l; rewrite /M' !fill_process_noise_cov_matrixE.
  by case: (_ == _).
Qed.

(** X5: on a target whose entries across different axes are zero (the zero
    matrix of init(), or an earlier result), and for dt >= 0,
    fill_process_noise_cov_matrix yields a symmetric positive semi-definite
    matrix; for dt = 0 it is the zero matrix. *)
Theorem fill_process_noise_cov_matrix_psd (M : 'M[R]_NS) (dt : R) :
  off_axis_zero M -> 0 <= dt ->
  let M' := FTNoIR_Filter_fill_process_noise_cov_matrix M dt in
  [/\ symmetric M', psd M' &
      FTNoIR_Filter_fill_process_noise_cov_matrix M 0 = 0].
Proof.
move=> M0 dt_ge0 M'; rewrite /M' !(fill_process_noise_cov_matrix_mx _ M0).
split; first exact: symmetric_process_noise_mx.
  by apply: psd_process_noise_mx; rewrite mulr_ge0 // -expr2 sqr_ge0.
apply/matrixP => k l; rewrite !mxE !mulr0 /axis_value.
by case: ifP => // _; case: (split _); rewrite mul0r.
Qed.

(* ------------------------------------------------------------------- *)
(* time_update and measurement_update on covariances                     *)
(* ------------------------------------------------------------------- *)

(** X6: time_update keeps covariances covariances.  When state_cov and
    process_noise_cov are symmetric and positive semi-definite, so is the
    state_cov_prior that time_update computes; state_prior becomes
    transition_matrix * state, and the eight other members are untouched. *)
Theorem time_update_keeps_covariance kf :
  symmetric (state_cov kf) -> psd (state_cov kf) ->
  symmetric (process_noise_cov kf) -> psd (process_noise_cov kf) ->
  let kf' := KalmanFilter_time_update kf in
  [/\ symmetric (state_cov_prior kf'), psd (state_cov_prior kf'),
      state_prior kf' = transition_matrix kf *m state kf &
      kf' = set_state_cov_prior (state_cov_prior kf')
              (set_state_prior (state_prior kf') kf)].
Proof.
move=> symP psdP symQ psdQ kf'.
by have [symP' psdP'] := time_update_covariance symP psdP symQ psdQ.
Qed.

(* A positive semi-definite matrix has a non-negative diagonal. *)
Lemma psd_diag n (A : 'M[R]_n) (k : 'I_n) : psd A -> 0 <= A k k.
Proof.
move=> /(_ (delta_mx 0 k)).
by rewrite /quad -rowE trmx_delta -colE !mxE.
Qed.

(* The inverse of a symmetric positive definite matrix is positive
   semi-definite. *)
Lemma psd_invmx n (S : 'M[R]_n) : symmetric S -> pd S -> psd (invmx S).
Proof.
move=> symS pdS x.
have S_unit := pd_unitmx pdS.
have -> : quad (invmx S) x = quad S (x *m invmx S).
  rewrite /quad trmx_mul trmx_inv symS !mulmxA.
  by rewrite -[x *m invmx S *m S]mulmxA mulVmx // mulmx1.
exact: pd_psd.
Qed.

(** X7: a measurement never adds uncertainty.  With a symmetric positive
    semi-definite prior covariance and a symmetric positive definite
    measurement noise, measurement_update leaves a state_cov that is
    positive semi-definite and below the prior covariance: the difference
    state_cov_prior - state_cov is positive semi-definite, and every
    variance on the diagonal lies between 0 and its prior value. *)
Theorem measurement_update_shrinks_covariance kf (measurement : PoseVector) :
  symmetric (state_cov_prior kf) -> psd (state_cov_prior kf) ->
  symmetric (measurement_noise_cov kf) -> pd (measurement_noise_cov kf) ->
  let kf' := KalmanFilter_measurement_update kf measurement in
  [/\ psd (state_cov kf'),
      psd (state_cov_prior kf - state_cov kf') &
      forall k, 0 <= state_cov kf' k k <= state_cov_prior kf k k].
Proof.
move=> symP psdP symR pdR kf'.
have [_ psdP'] := measurement_update_covariance measurement symP psdP symR pdR.
have shrink : psd (state_cov_prior kf - state_cov kf').
  rewrite /kf' /KalmanFilter_measurement_update [state_cov _]/=.
  set H := measurement_matrix kf; set P := state_cov_prior kf.
  set S := H *m P *m H^T + measurement_noise_cov kf.
  have symS : symmetric S.
    by apply: symmetricD => //; apply: symmetric_congruence.
  have pdS : pd S by apply: pdD => //; apply: psd_congruence.
  rewrite (inverse_unit (pd_unitmx pdS)) opprB addrC subrK.
  have -> : P *m H^T *m invmx S *m H *m P
            = (P *m H^T) *m invmx S *m (P *m H^T)^T.
    by rewrite trmx_mul trmxK [P^T]symP !mulmxA.
  by apply: psd_congruence; apply: psd_invmx.
split=> // k; rewrite psd_diag //=.
by have := psd_diag k shrink; rewrite !mxE subr_ge0.
Qed.

(* ------------------------------------------------------------------- *)
(* KalmanProcessNoiseScaler::update on the innovation covariance         *)
(* ------------------------------------------------------------------- *)

Lemma symmetric_outer n (y : 'cV[R]_n) : symmetric (y *m y^T).
Proof. by rewrite /symmetric trmx_mul trmxK. Qed.

Lemma psd_outer n (y : 'cV[R]_n) : psd (y *m y^T).
Proof.
move=> x; rewrite /quad mulmxA -mulmxA -trmx_mul.
by rewrite mxE big_ord_recl big_ord0 addr0 [_^T _ _]mxE -expr2 sqr_ge0.
Qed.

(** X8: the innovation covariance estimate.  For dt >= 0 and a positive
    window length the weight f = dt / (dt + window) lies in [0, 1), so
    update() replaces the estimate by a convex combination of
    innovation * innovation^T and the old estimate: a symmetric positive
    semi-definite estimate stays one, and dt = 0 leaves it as it was.
    update() never writes base_cov, and of the Kalman filter it writes
    process_noise_cov only. *)
Theorem scaler_update_estimate (sc : KalmanProcessNoiseScaler) kf (dt : R) :
  0 <= dt -> 0 < adaptivity_window_length :> R ->
  symmetric (innovation_cov_estimate sc) ->
  psd (innovation_cov_estimate sc) ->
  let r := KalmanProcessNoiseScaler_update sc kf dt in
  let f := dt / (dt + adaptivity_window_length) in
  [/\ 0 <= f < 1,
      innovation_cov_estimate r.1
      = f *: (innovation kf *m (innovation kf)^T)
        + (1 - f) *: innovation_cov_estimate sc,
      symmetric (innovation_cov_estimate r.1) &
      psd (innovation_cov_estimate r.1)]
  /\ [/\ dt = 0 -> innovation_cov_estimate r.1 = innovation_cov_estimate sc,
         base_cov r.1 = base_cov sc &
         r.2 = set_process_noise_cov (process_noise_cov r.2) kf].
Proof.
move=> dt_ge0 window_gt0 symE psdE r f.
have den_gt0 : 0 < dt + adaptivity_window_length by apply: ltr_wpDl.
have f_ge0 : 0 <= f by rewrite divr_ge0 // ltW.
have f_lt1 : f < 1 by rewrite ltr_pdivrMr // mul1r ltrDl.
have estimateE : innovation_cov_estimate r.1
                 = f *: (innovation kf *m (innovation kf)^T)
                   + (1 - f) *: innovation_cov_estimate sc by [].
split; last first.
  split=> // dt0; rewrite estimateE /f dt0 mul0r scale0r add0r subr0.
  by rewrite scale1r.
rewrite estimateE f_ge0 f_lt1; split=> //.
  by apply: symmetricD; apply: symmetricZ => //; apply: symmetric_outer.
apply: psdD; apply: psdZ => //; first exact: psd_outer.
by rewrite subr_ge0 ltW.
Qed.

(* ------------------------------------------------------------------- *)
(* DeadzoneFilter::filter, axis by axis                                  *)
(* ------------------------------------------------------------------- *)

(** X9: the deadzone filter works axis by axis.  Output i depends on
    input[i], last_output[i] and dz_size[i] alone (it is the soft-knee
    response of that axis); after the call last_output is the vector just
    returned, and dz_size is untouched. *)
Theorem deadzone_filter_axiswise (self : DeadzoneFilter)
    (input : PoseVector) :
  let r := DeadzoneFilter_filter self input in
  [/\ forall i, r.2 i 0
                = deadzone_axis (last_output self i 0) (dz_size self i 0)
                    (input i 0),
      last_output r.1 = r.2 &
      dz_size r.1 = dz_size self].
Proof.
by move=> r; rewrite /r DeadzoneFilter_filterE; split=> // i; rewrite mxE.
Qed.

(* ------------------------------------------------------------------- *)
(* FTNoIR_Filter::filter, call by call                                   *)
(* ------------------------------------------------------------------- *)

Lemma slider_check_prev self s :
  prev_slider_pos (slider_check self s)
  = (noise_pos_slider_value s, noise_rot_slider_value s).
Proof.
rewrite /slider_check; case: ifP => [_|].
  by have [[_ _ _ -> _] _] := reset_fields self s.
rewrite /sliders_changed; case: (prev_slider_pos self) => a b /=.
by move=> /negbT; rewrite negb_or !negbK => /andP [/eqP -> /eqP ->].
Qed.

(* The members filter() sets on every path. *)
Lemma filter_fields self s (now : R) input output :
  let r := FTNoIR_Filter_filter self s now input output in
  let checked := slider_check self s in
  [/\ first_run r.1 = false, timer r.1 = now,
      prev_slider_pos r.1 = prev_slider_pos checked &
      last_input r.1
      = if first_run checked then last_input checked else input].
Proof.
move=> r checked; rewrite /r /FTNoIR_Filter_filter -/checked.
case first_checked: (first_run checked).
  by rewrite /filter_after_slider_check first_checked.
rewrite running_tick //.
have [[_ timer_k first_k _ last_k] [prev_k _ _]] :=
  do_kalman_filter_frame
    (set_timer now
       (set_dt_since_last_input
          (dt_since_last_input checked
           + Timer_elapsed_seconds (timer checked) now) checked))
    input (Timer_elapsed_seconds (timer checked) now)
    (is_new_input checked input).
move: (FTNoIR_Filter_do_kalman_filter _ _ _ _) timer_k first_k last_k prev_k
  => k timer_k first_k last_k prev_k.
rewrite [first_run _]/= [timer _]/= [prev_slider_pos _]/= [last_input _]/=.
rewrite timer_k first_k last_k prev_k; split=> //.
case new_input: (is_new_input checked input) => //.
move: new_input; rewrite /is_new_input vector_neqE => /negbFE /eqP <-.
by [].
Qed.

(** X12: what every call of filter() leaves behind.  After any call,
    first_run is cleared, the timer holds the clock reading of the call and
    prev_slider_pos holds the sliders of the call, so that the next call
    with the same sliders does not reset; and unless the call was a warm-up
    tick, the stored last input is the input of the call. *)
Theorem filter_postconditions self s (now : R) input output :
  let r := FTNoIR_Filter_filter self s now input output in
  let checked := slider_check self s in
  [/\ first_run r.1 = false,
      timer r.1 = now,
      prev_slider_pos r.1
      = (noise_pos_slider_value s, noise_rot_slider_value s),
      sliders_changed r.1 s = false &
      last_input r.1
      = if first_run checked then last_input checked else input].
Proof.
move=> r checked.
have prevE := slider_check_prev self s.
have [firstE timerE prev'E lastE] := filter_fields self s now input output.
split=> //; first by rewrite prev'E.
by rewrite /sliders_changed prev'E prevE /= !eqxx.
Qed.

(** X13: the Kalman step uses the time since the last measurement.  On a
    tick that is not the first, with unchanged sliders, the elapsed time
    now - timer is added to dt_since_last_input.  If the input is new, the
    sum is the time step written into the transition matrix (entries
    (i, i + 6)) and into the process-noise model held in base_cov, and the
    counter restarts from 0; if it is not, the sum is kept for later and
    neither the transition matrix nor base_cov changes. *)
Theorem elapsed_time_accumulates self s (now : R) input output :
  sliders_changed self s = false ->
  first_run self = false ->
  let r := FTNoIR_Filter_filter self s now input output in
  let total := dt_since_last_input self + (now - timer self) in
  let new_input := is_new_input self input in
  [/\ dt_since_last_input r.1 = (if new_input then 0 else total),
      forall i j : 'I_NZ,
        transition_matrix (kf r.1) (lshift NZ i) (rshift NZ j)
        = if new_input && (i == j) then total
          else transition_matrix (kf self) (lshift NZ i) (rshift NZ j) &
      base_cov (kf_adaptive_process_noise_cov r.1)
      = if new_input
        then FTNoIR_Filter_fill_process_noise_cov_matrix
               (base_cov (kf_adaptive_process_noise_cov self)) total
        else base_cov (kf_adaptive_process_noise_cov self)].
Proof.
move=> unchanged not_first r total new_input.
rewrite /r /FTNoIR_Filter_filter /slider_check unchanged running_tick //.
rewrite -/new_input /Timer_elapsed_seconds -/total.
case: new_input; last by [].
rewrite /FTNoIR_Filter_do_kalman_filter.
rewrite [dt_since_last_input (set_timer _ _)]/=.
split=> // i j.
rewrite [kf _]/= [transition_matrix _]/= fill_transition_matrix_set.
rewrite [transition_matrix _]/= fill_transition_matrix_loop.
by rewrite exists_shift_pair; case: ifP.
Qed.

(* ------------------------------------------------------------------- *)
(* The model matrices along a run                                        *)
(* ------------------------------------------------------------------- *)

Lemma iso_mx_block (d : R) :
  iso_mx (MkM2 1 d 0 1) = block_mx 1%:M d%:M 0 1%:M.
Proof. by rewrite /iso_mx /= scalar_mx_zero. Qed.

(* The Kalman step of do_kalman_filter writes neither the measurement
   matrix nor the measurement noise, and of the transition matrix only what
   fill_transition_matrix writes. *)
Lemma kalman_step_frame kf (sc : KalmanProcessNoiseScaler) (dt : R)
    (measurement : PoseVector) :
  let kf1 := FTNoIR_Filter_fill_transition_matrix kf dt in
  let kf' := KalmanFilter_measurement_update
               (KalmanFilter_time_update
                  (KalmanProcessNoiseScaler_update sc kf1 dt).2)
               measurement in
  [/\ measurement_matrix kf' = measurement_matrix kf,
      measurement_noise_cov kf' = measurement_noise_cov kf &
      transition_matrix kf' = transition_matrix kf1].
Proof.
move=> kf1 kf'.
have [[noiseE _ _ matrixE _] _] := fill_transition_matrix_frame kf dt.
by rewrite -noiseE -matrixE.
Qed.

Lemma reset_constant_velocity_model self s :
  constant_velocity_model (FTNoIR_Filter_reset self s).
Proof.
have [[_ _ _ prevE _] _] := reset_fields self s.
rewrite /constant_velocity_model prevE reset_kf; split=> //.
by exists (3%:R / 100%:R); rewrite [transition_matrix _]/= iso_mx_block.
Qed.

Lemma do_kalman_filter_model self input (dt : R) (new_input : bool) :
  let k := FTNoIR_Filter_do_kalman_filter self input dt new_input in
  [/\ measurement_matrix (kf k.1) = measurement_matrix (kf self),
      measurement_noise_cov (kf k.1) = measurement_noise_cov (kf self) &
      transition_matrix (kf k.1)
      = if new_input
        then transition_matrix
               (FTNoIR_Filter_fill_transition_matrix (kf self)
                  (dt_since_last_input self))
        else transition_matrix (kf self)].
Proof.
case: new_input; last by [].
exact: (kalman_step_frame (kf self)
          (set_base_cov
             (FTNoIR_Filter_fill_process_noise_cov_matrix
                (base_cov (kf_adaptive_process_noise_cov self))
                (dt_since_last_input self))
             (kf_adaptive_process_noise_cov self))
          (dt_since_last_input self) input).
Qed.

Lemma filter_constant_velocity_model self s (now : R) input output :
  constant_velocity_model self ->
  constant_velocity_model (FTNoIR_Filter_filter self s now input output).1.
Proof.
move=> model_self; rewrite /FTNoIR_Filter_filter.
have : constant_velocity_model (slider_check self s).
  by rewrite /slider_check; case: ifP => // _;
     apply: reset_constant_velocity_model.
move: (slider_check self s) => {model_self}self [matrixE [d FE] noiseE].
case first_self: (first_run self).
  by rewrite /filter_after_slider_check first_self; split=> //; exists d.
rewrite running_tick //.
set self1 := set_timer now _.
have FE1 : transition_matrix (kf self1) = block_mx 1%:M d%:M 0 1%:M := FE.
have [matrix_k noise_k F_k] :=
  do_kalman_filter_model self1 input (Timer_elapsed_seconds (timer self) now)
    (is_new_input self input).
have [_ [prev_k _ _]] :=
  do_kalman_filter_frame self1 input (Timer_elapsed_seconds (timer self) now)
    (is_new_input self input).
move: (FTNoIR_Filter_do_kalman_filter _ _ _ _) matrix_k noise_k F_k prev_k
  => k matrix_k noise_k F_k prev_k.
rewrite /constant_velocity_model [kf _]/= [prev_slider_pos _]/=.
rewrite matrix_k noise_k F_k prev_k; split=> //.
case: (is_new_input self input); last by exists d.
exists (dt_since_last_input self1).
rewrite fill_transition_matrix_set [transition_matrix _]/= FE1.
by rewrite -iso_mx_block transition_entries iso_mx_block.
Qed.

(** X14: the model matrices along a run.  From the constructor on, and
    after any sequence of calls of filter() (sliders changing or not, any
    clock readings, any poses), the measurement matrix is [I 0], the
    transition matrix is [I d I; 0 I] for some d, the measurement noise is
    the diagonal matrix of the mapped sliders held in prev_slider_pos, and
    prev_slider_pos holds the sliders of the latest call (those given to
    the constructor when there was no call). *)
Theorem run_keeps_model (members : FTNoIR_Filter) s0 output
    (ticks : seq tick) :
  let r := run members s0 output ticks in
  let s := last s0 [seq tick_settings t | t <- ticks] in
  constant_velocity_model r.1
  /\ prev_slider_pos r.1
     = (noise_pos_slider_value s, noise_rot_slider_value s).
Proof.
rewrite /run /FTNoIR_Filter_ctor.
have : constant_velocity_model (FTNoIR_Filter_reset members s0, output).1
       /\ prev_slider_pos (FTNoIR_Filter_reset members s0, output).1
          = (noise_pos_slider_value s0, noise_rot_slider_value s0).
  split; first exact: reset_constant_velocity_model.
  by have [[_ _ _ -> _] _] := reset_fields members s0.
move: (FTNoIR_Filter_reset members s0, output) => st.
elim: ticks s0 st => [|t ticks IH] s0 st //= [model_st prev_st].
apply: IH; split; first exact: filter_constant_velocity_model.
rewrite /run_tick.
have [_ _ -> _] :=
  filter_fields st.1 (tick_settings t) (tick_now t) (tick_input t) st.2.
exact: slider_check_prev.
Qed.

(* ------------------------------------------------------------------- *)
(* Axes that start alike stay alike                                      *)
(* ------------------------------------------------------------------- *)

(** X15: the six axes are filtered alike.  Let the two process sigmas be
    equal and both sliders be at v, let the filter hold the same numbers on
    every axis (filter_of_iso i), and let the input pose and the output
    buffer hold z and o on every axis.  If Eigen's inverse() inverts
    invertible matrices and the scalar S = P_prior(0,0) + R(0,0) of the
    step is not zero, then after filter() the filter again holds the same
    numbers on every axis and so does the output: each axis follows the
    two-state (position, velocity) recursion iso_filter. *)
Theorem filter_keeps_axes_alike (i : IsoFilter) (v now z o : R) :
  iso_filter_S i v now z != 0 ->
  let r := FTNoIR_Filter_filter (filter_of_iso i) (Settings v v) now
             (const_mx z) (const_mx o) in
  [/\ r.1 = filter_of_iso (iso_filter i v now z o).1,
      r.2 = const_mx (iso_filter i v now z o).2 &
      forall a b : 'I_NZ, r.2 a 0 = r.2 b 0].
Proof.
move=> S_neq0 r; rewrite /r (filter_iso _ S_neq0).
by split=> // a b; rewrite !mxE.
Qed.

(* ------------------------------------------------------------------- *)
(* Limit cases of measurement_update                                     *)
(* ------------------------------------------------------------------- *)

(** X16: a filter that is certain ignores the measurement.  When
    state_cov_prior is zero and measurement_noise_cov is invertible, the
    matrix S handed to inverse() is measurement_noise_cov itself, hence
    invertible (so that inverse() returns finite entries), and
    measurement_update computes a zero gain, copies state_prior into the
    state and leaves state_cov zero. *)
Theorem measurement_update_zero_prior kf (measurement : PoseVector) :
  state_cov_prior kf = 0 ->
  measurement_noise_cov kf \in unitmx ->
  let S := measurement_matrix kf *m state_cov_prior kf
           *m (measurement_matrix kf)^T + measurement_noise_cov kf in
  let kf' := KalmanFilter_measurement_update kf measurement in
  [/\ S = measurement_noise_cov kf /\ S \in unitmx,
      kalman_gain kf' = 0, state kf' = state_prior kf & state_cov kf' = 0].
Proof.
move=> prior0 noise_unit S kf'.
have SE : S = measurement_noise_cov kf.
  by rewrite /S prior0 mulmx0 mul0mx add0r.
have gain0 : kalman_gain kf' = 0.
  by rewrite /kf' /KalmanFilter_measurement_update [kalman_gain _]/= prior0
             !mul0mx.
split=> //; first by rewrite SE.
  have -> : state kf' = state_prior kf + kalman_gain kf' *m innovation kf'.
    by [].
  by rewrite gain0 mul0mx addr0.
have -> : state_cov kf'
          = state_cov_prior kf
            - kalman_gain kf' *m measurement_matrix kf *m state_cov_prior kf.
  by [].
by rewrite prior0 mulmx0 subr0.
Qed.

(** X17: a noise-free measurement is taken at its word.  When
    measurement_noise_cov is zero and H P_prior H^T is invertible (inverse()
    being the inverse there), measurement_update leaves a state whose
    measured part H * state is the measurement itself, and a state_cov
    whose measured part H * state_cov * H^T is zero. *)
Theorem measurement_update_exact_measurement kf (measurement : PoseVector) :
  measurement_noise_cov kf = 0 ->
  measurement_matrix kf *m state_cov_prior kf *m (measurement_matrix kf)^T
    \in unitmx ->
  let kf' := KalmanFilter_measurement_update kf measurement in
  measurement_matrix kf *m state kf' = measurement
  /\ measurement_matrix kf *m state_cov kf' *m (measurement_matrix kf)^T = 0.
Proof.
move=> noise0 S_unit kf'.
set H := measurement_matrix kf; set P := state_cov_prior kf.
have gainE : kalman_gain kf' = P *m H^T *m invmx (H *m P *m H^T).
  rewrite /kf' /KalmanFilter_measurement_update [kalman_gain _]/= noise0 addr0.
  by rewrite (inverse_unit S_unit).
split.
  have -> : state kf'
            = state_prior kf
              + kalman_gain kf' *m (measurement - H *m state_prior kf).
    by [].
  by rewrite mulmxDr gainE !mulmxA (mulmxV S_unit) mul1mx addrC subrK.
have -> : state_cov kf' = P - kalman_gain kf' *m H *m P by [].
rewrite mulmxBr mulmxBl gainE !mulmxA (mulmxV S_unit) mul1mx.
by rewrite subrr.
Qed.

(* ------------------------------------------------------------------- *)
(* The deadzone at a variance minimum, and the first Kalman step         *)
(* ------------------------------------------------------------------- *)

(** X20: at a variance minimum the output is the Kalman pose.  On a tick
    that is not a warm-up tick, take an axis whose variance after the call
    is not above the running minimum held before the call (as on the first
    measurement after reset(), when the minimum is still the largest
    double).  If sqrt(0) = 0, the deadzone of that axis is zero and filter()
    returns on it the pose of the Kalman state, unfiltered. *)
Theorem output_is_pose_at_minimum self s (now : R) input output
    (i : 'I_NZ) :
  sqrt 0 = 0 :> R ->
  first_run (slider_check self s) = false ->
  let r := FTNoIR_Filter_filter self s now input output in
  variance_of (kf r.1) i 0 <= minimal_state_var (slider_check self s) i 0 ->
  [/\ minimal_state_var r.1 i 0 = variance_of (kf r.1) i 0,
      dz_size (dz_filter r.1) i 0 = 0 &
      r.2 i 0 = head6 (state (kf r.1)) i 0].
Proof.
move=> sqrt0 not_first; rewrite /FTNoIR_Filter_filter running_tick //.
move: (slider_check self s) => checked.
have := do_kalman_filter_frame
  (set_timer now
     (set_dt_since_last_input
        (dt_since_last_input checked
         + Timer_elapsed_seconds (timer checked) now) checked))
  input (Timer_elapsed_seconds (timer checked) now)
  (is_new_input checked input).
move: (FTNoIR_Filter_do_kalman_filter _ _ _ _) => k [_ [_ minimal_k ->]].
rewrite DeadzoneFilter_filterE.
rewrite [minimal_state_var _]/= [dz_filter _]/= [kf _]/= [dz_size _]/=.
rewrite minimal_k [minimal_state_var _]/= [(_, _).2]/=.
set v := variance_of (kf k.1) => at_minimum.
have minE : cwiseMin (minimal_state_var checked) v i 0 = v i 0.
  rewrite mxE /std_min; case: ifP => // /negbT; rewrite -leNgt => min_le.
  by apply/eqP; rewrite eq_le min_le at_minimum.
have dz0 : deadzone_size v (cwiseMin (minimal_state_var checked) v) i 0 = 0.
  by rewrite mxE [X in X * _]mxE mxE [X in _ + X]mxE minE subrr sqrt0 mul0r.
by split=> //; rewrite mxE /deadzone_axis dz0 ltxx.
Qed.

(** X21: the first Kalman step cannot adapt.  After the constructor and the
    warm-up tick, the tick that brings the first non-zero pose finds
    state_cov_prior = 0, hence T2 = 0 and alpha = 0.001 whatever the
    innovation: the process noise of that step is a thousandth of the
    process-noise model of the time elapsed since the warm-up tick. *)
Theorem first_step_process_noise (members : FTNoIR_Filter) s
    (n1 n2 : R) (z1 z output : PoseVector) :
  z != 0 ->
  let st1 := FTNoIR_Filter_filter (FTNoIR_Filter_ctor members s) s n1 z1
               output in
  let r := FTNoIR_Filter_filter st1.1 s n2 z st1.2 in
  let dt := 0 + (n2 - n1) in
  process_noise_cov (kf r.1)
  = (1 / 1000%:R)
    *: process_noise_mx (process_sigma_pos * process_sigma_pos * dt)
         (process_simga_rot * process_simga_rot * dt) 20%:R 1.
Proof.
move=> z_neq0 st1 r dt.
have [st1E unchanged not_first last0 checkE] :=
  warm_up_tick members s n1 z1 output.
have new_input : is_new_input st1.1 z by rewrite /is_new_input vector_neqE last0.
have [_ prior0 _ baseE _] := reset_covariances members s.
rewrite /r /FTNoIR_Filter_filter checkE running_tick // new_input.
rewrite [kf _]/= /FTNoIR_Filter_do_kalman_filter [kf _]/=.
set d := dt_since_last_input _ + Timer_elapsed_seconds _ _.
have dE : d = dt.
  have [[_ _ dt0 _ _] _] := reset_fields members s.
  rewrite /d /Timer_elapsed_seconds st1E.
  by rewrite /dt -dt0.
set scaler := set_base_cov _ _.
set kf1 := FTNoIR_Filter_fill_transition_matrix _ d.
have -> : process_noise_cov
            (KalmanFilter_measurement_update
               (KalmanFilter_time_update
                  (KalmanProcessNoiseScaler_update scaler kf1 d).2) z)
          = scaling_factor
              (trace_T1 (set_innovation_cov_estimate
                           (updated_innovation_cov_estimate scaler kf1 d)
                           scaler) kf1)
              (trace_T2 kf1)
            *: base_cov scaler by [].
have prior1 : state_cov_prior kf1 = 0.
  have [[_ _ -> _ _] _] := fill_transition_matrix_frame (kf st1.1) d.
  by rewrite st1E.
have -> : trace_T2 kf1 = 0.
  by rewrite /trace_T2 prior1 mulmx0 mul0mx mxtrace0.
rewrite /scaling_factor ltxx andFb; congr (_ *: _).
rewrite /scaler [base_cov _]/= st1E [kf_adaptive_process_noise_cov _]/= baseE.
rewrite fill_process_noise_cov_matrix_mx ?dE //.
exact: off_axis_zero_process_noise_mx.
Qed.

End KalmanTheory.

(* ===================================================================== *)
(* The properties on the rational instance                                *)
(* ===================================================================== *)

Section RationalInstance.


Lemma rat_sqrt_ge0 (x : rat) : 0 <= x -> 0 <= sqrt x.
Proof.
by move=> x_ge0; rewrite /= /rat_sqrt x_ge0 divr_ge0 // ler0n.
Qed.

Lemma rat_deadzone_scale_ge0 : 0 <= (deadzone_scale : rat).
Proof. by []. Qed.

Lemma rat_inverse_unit (A : 'M[rat]_NZ) :
  A \in unitmx -> inverse A = invmx A.
Proof. by []. Qed.

Lemma rat_map_slider_value_gt0 (v : rat) : 0 < map_slider_value v.
Proof.
by rewrite /= /rat_pow; case: (denq _ == 1) => //; apply: exprz_gt0.
Qed.

Lemma deadzone_disabled_axis_witness :
  dz_size (MkDeadzone (R := rat) 0 0) ord0 0 <= 0
  /\ (let r := DeadzoneFilter_filter (MkDeadzone 0 0) unit_pose in
      r.2 ord0 0 = unit_pose ord0 0
      /\ last_output r.1 ord0 0 = unit_pose ord0 0).
Proof.
have dz0 : dz_size (MkDeadzone (R := rat) 0 0) ord0 0 <= 0 by rewrite /= mxE.
by split; [exact: dz0 | exact: (deadzone_disabled_axis unit_pose dz0)].
Defined.






Lemma deadzone_size_nonneg_witness :
  [/\ forall x : rat, 0 <= x -> 0 <= sqrt x,
      0 <= (deadzone_scale : rat) &
      first_run (slider_check warmed_filter sliders_a) = false]
  /\ (let r := FTNoIR_Filter_filter warmed_filter sliders_a (1 / 10%:R)
                 unit_pose 0 in
      let variance := variance_of (kf r.1) in
      let before := minimal_state_var (slider_check warmed_filter sliders_a) in
      [/\ minimal_state_var r.1 ord0 0
          = std_min (before ord0 0) (variance ord0 0),
          0 <= (variance - minimal_state_var r.1) ord0 0,
          dz_size (dz_filter r.1) ord0 0
          = sqrt ((variance - minimal_state_var r.1) ord0 0) * deadzone_scale &
          0 <= dz_size (dz_filter r.1) ord0 0]).
Proof.
have not_first : first_run (slider_check warmed_filter sliders_a) = false.
  by have [_ _ first1 _ ->] := warm_up_tick blank_members sliders_a 0 unit_pose 0.
split; first by split; [exact: rat_sqrt_ge0 | | exact: not_first].
exact: (deadzone_size_nonneg rat_sqrt_ge0 rat_deadzone_scale_ge0
          (1 / 10%:R) unit_pose 0 ord0 not_first).
Defined.

Lemma rat_sqrt_quarter : rat_sqrt (1 / 4%:R) = 1 / 2%:R.
Proof. by apply/eqP; vm_compute. Qed.

Lemma sliders_a_neq_b :
  (noise_pos_slider_value sliders_a != noise_pos_slider_value sliders_b).
Proof. by vm_compute. Qed.

Lemma three_ticks_sorted :
  sorted <=%R [seq tick_now t | t <- three_ticks].
Proof. by vm_compute. Qed.

Lemma unit_pose_neq0 : unit_pose != 0.
Proof.
apply/eqP => /colP /(_ ord0); rewrite !mxE => /eqP.
by rewrite oner_eq0.
Qed.

Lemma first_tick_is_warm_up_witness :
  first_run fresh_filter
  /\ (let r := FTNoIR_Filter_filter fresh_filter sliders_a 0 unit_pose 0 in
      [/\ r.2 = 0, first_run r.1 = false, kf r.1 = kf fresh_filter,
          dz_filter r.1 = dz_filter fresh_filter &
          last_input r.1 = last_input fresh_filter]).
Proof.
have first : first_run fresh_filter by [].
split; first exact: first.
have [[out_same first' _ _] [[kf' _ dz' last' _] [_ after_reset]]] :=
  first_tick_is_warm_up sliders_a 0 unit_pose 0 first.
have [last_same dz_same] := after_reset blank_members sliders_a (erefl _).
by split; [exact: out_same | exact: first' | | exact: dz_same
          | exact: last_same]; rewrite kf' /slider_check sliders_changed_reset.
Defined.

Lemma repeated_input_skips_kalman_step_witness :
  [/\ sliders_changed warmed_filter sliders_a = false,
      first_run warmed_filter = false &
      is_new_input warmed_filter 0 = false]
  /\ (let r := FTNoIR_Filter_filter warmed_filter sliders_a (1 / 10%:R) 0 0 in
      [/\ kf r.1 = kf warmed_filter,
          kf_adaptive_process_noise_cov r.1
          = kf_adaptive_process_noise_cov warmed_filter &
          last_input r.1 = last_input warmed_filter]).
Proof.
have [_ unchanged not_first last0 _] :=
  warm_up_tick blank_members sliders_a 0 unit_pose 0.
have not_new : is_new_input warmed_filter 0 = false.
  by rewrite /is_new_input vector_neqE last0 eqxx.
split; first by split.
have [[kf_same scaler_same last_same _] _] :=
  repeated_input_skips_kalman_step (1 / 10%:R) 0 unchanged not_first not_new.
by split.
Defined.

Lemma slider_change_resets_witness :
  sliders_changed warmed_filter sliders_b
  /\ (let fresh := FTNoIR_Filter_ctor blank_members sliders_b in
      let mid := slider_check warmed_filter sliders_b in
      [/\ set_timer (timer blank_members) mid = fresh,
          kf mid = kf fresh,
          dz_filter mid = dz_filter fresh,
          first_run mid = first_run fresh &
          FTNoIR_Filter_filter warmed_filter sliders_b (1 / 10%:R) unit_pose 0
          = FTNoIR_Filter_filter fresh sliders_b (1 / 10%:R) unit_pose 0]).
Proof.
have changed : sliders_changed warmed_filter sliders_b.
  have [-> _ _ _ _] := warm_up_tick blank_members sliders_a 0 unit_pose 0.
  by rewrite /sliders_changed [prev_slider_pos _]/= sliders_a_neq_b.
split; first exact: changed.
have [[_ same _ same_call] [[same_kf _ same_dz _ _] [same_first _ _]]] :=
  slider_change_resets (1 / 10%:R) unit_pose 0 blank_members changed.
by split.
Defined.

Lemma state_cov_stays_symmetric_witness :
  [/\ forall A : 'M[rat]_NZ, A \in unitmx -> inverse A = invmx A,
      forall v : rat, 0 < map_slider_value v &
      sorted <=%R [seq tick_now t | t <- three_ticks]]
  /\ (let r := run blank_members sliders_a 0 three_ticks in
      symmetric (state_cov (kf r.1))
      /\ symmetric (state_cov_prior (kf r.1))).
Proof.
split; first by split; [exact: rat_inverse_unit
                       | exact: rat_map_slider_value_gt0
                       | exact: three_ticks_sorted].
have [[sym_cov sym_prior _ _] _] :=
  state_cov_stays_symmetric rat_inverse_unit rat_map_slider_value_gt0
    blank_members sliders_a 0 three_ticks_sorted.
by split.
Defined.


(* C5 as stated fails: on a running filter whose stored last input is the
   unit pose, a tick carrying the unit pose again skips the Kalman step, yet
   the first component of what filter() returns is 1/2: neither the
   Kalman-filtered pose (1) nor the previously returned pose (0).  The
   variance is above its running minimum, as after a measurement that
   followed a longer pause, so the deadzone is open. *)
Lemma repeated_input_moves_output :
  let r := FTNoIR_Filter_filter running_filter sliders_a (1 / 10%:R)
             unit_pose 0 in
  [/\ sliders_changed running_filter sliders_a = false,
      first_run running_filter = false &
      is_new_input running_filter unit_pose = false]
  /\ [/\ r.2 ord0 0 = 1 / 2%:R,
         head6 (state (kf running_filter)) ord0 0 = 1,
         last_output (dz_filter running_filter) ord0 0 = 0,
         r.2 != head6 (state (kf running_filter)) &
         r.2 != last_output (dz_filter running_filter)].
Proof.
move=> r.
have unchanged : sliders_changed running_filter sliders_a = false.
  by rewrite /sliders_changed [prev_slider_pos _]/=; vm_compute.
have not_new : is_new_input running_filter unit_pose = false.
  by rewrite /is_new_input vector_neqE eqxx.
have pose0 : head6 (state (kf running_filter)) ord0 0 = 1 by rewrite !mxE.
have last0 : last_output (dz_filter running_filter) ord0 0 = 0 by rewrite mxE.
have out0 : r.2 ord0 0 = 1 / 2%:R.
  rewrite /r /FTNoIR_Filter_filter /slider_check unchanged running_tick //.
  rewrite not_new do_kalman_filter_skip DeadzoneFilter_filterE.
  rewrite [(_, _).2]/= mxE.
  set v := variance_of _.
  have vE : v ord0 0 = 1 by rewrite /v !mxE eqxx.
  move: v vE => v vE.
  rewrite /deadzone_size /cwiseSqrt /cwiseMin !mxE vE.
  by apply/eqP; vm_compute.
have half_neq1 : (1 / 2%:R != 1 :> rat) by vm_compute.
have half_neq0 : (1 / 2%:R != 0 :> rat) by vm_compute.
split; first by split.
split=> //.
  by apply/eqP => /colP /(_ ord0); rewrite out0 pose0 => /eqP; apply/negP.
by apply/eqP => /colP /(_ ord0); rewrite out0 last0 => /eqP; apply/negP.
Qed.

(* ------------------------------------------------------------------- *)
(* Instances of the further properties                                   *)
(* ------------------------------------------------------------------- *)

Lemma rat_process_sigma_same : process_simga_rot = process_sigma_pos :> rat.
Proof. by []. Qed.

Lemma fresh_covariances :
  [/\ state_cov (kf fresh_filter) = nominal_process_noise,
      state_cov_prior (kf fresh_filter) = 0,
      process_noise_cov (kf fresh_filter) = nominal_process_noise &
      measurement_noise_cov (kf fresh_filter)
      = measurement_noise_mx (map_slider_value (1 / 2%:R))
          (map_slider_value (1 / 2%:R))].
Proof.
by have [covE priorE procE _ noiseE] :=
  reset_covariances blank_members sliders_a.
Qed.

Lemma fill_process_noise_cov_matrix_psd_witness :
  [/\ off_axis_zero (0 : 'M[rat]_NS) & (0 : rat) <= 3%:R / 100%:R]
  /\ (let M' := FTNoIR_Filter_fill_process_noise_cov_matrix
                  (0 : 'M[rat]_NS) (3%:R / 100%:R) in
      symmetric M' /\ psd M').
Proof.
have dt_ge0 : (0 : rat) <= 3%:R / 100%:R by rewrite divr_ge0 // ler0n.
split; first by split; [exact: off_axis_zero0 | exact: dt_ge0].
have [sym_M psd_M _] :=
  fill_process_noise_cov_matrix_psd (@off_axis_zero0 rat) dt_ge0.
by split.
Defined.

Lemma time_update_keeps_covariance_witness :
  [/\ symmetric (state_cov (kf fresh_filter)),
      psd (state_cov (kf fresh_filter)),
      symmetric (process_noise_cov (kf fresh_filter)) &
      psd (process_noise_cov (kf fresh_filter))]
  /\ (let kf' := KalmanFilter_time_update (kf fresh_filter) in
      symmetric (state_cov_prior kf') /\ psd (state_cov_prior kf')).
Proof.
have [covE _ procE _] := fresh_covariances.
have sym_cov : symmetric (state_cov (kf fresh_filter)).
  by rewrite covE; apply: symmetric_process_noise_mx.
have psd_cov : psd (state_cov (kf fresh_filter)).
  by rewrite covE; apply: psd_nominal_process_noise.
have sym_proc : symmetric (process_noise_cov (kf fresh_filter)).
  by rewrite procE; apply: symmetric_process_noise_mx.
have psd_proc : psd (process_noise_cov (kf fresh_filter)).
  by rewrite procE; apply: psd_nominal_process_noise.
split; first by split.
have [sym_prior psd_prior _ _] :=
  time_update_keeps_covariance sym_cov psd_cov sym_proc psd_proc.
by split.
Defined.

Lemma measurement_update_shrinks_covariance_witness :
  [/\ forall A : 'M[rat]_NZ, A \in unitmx -> inverse A = invmx A,
      symmetric (state_cov_prior (kf fresh_filter)),
      psd (state_cov_prior (kf fresh_filter)),
      symmetric (measurement_noise_cov (kf fresh_filter)) &
      pd (measurement_noise_cov (kf fresh_filter))]
  /\ (let kf' := KalmanFilter_measurement_update (kf fresh_filter)
                   unit_pose in
      [/\ psd (state_cov kf'),
          psd (state_cov_prior (kf fresh_filter) - state_cov kf') &
          forall k, 0 <= state_cov kf' k k
                    <= state_cov_prior (kf fresh_filter) k k]).
Proof.
have [_ priorE _ noiseE] := fresh_covariances.
have sym_prior : symmetric (state_cov_prior (kf fresh_filter)).
  by rewrite priorE; apply: symmetric0.
have psd_prior : psd (state_cov_prior (kf fresh_filter)).
  by rewrite priorE; apply: psd0.
have sym_noise : symmetric (measurement_noise_cov (kf fresh_filter)).
  by rewrite noiseE; apply: symmetric_measurement_noise_mx.
have pd_noise : pd (measurement_noise_cov (kf fresh_filter)).
  by rewrite noiseE; apply: pd_measurement_noise_mx;
     apply: rat_map_slider_value_gt0.
split; first by split=> //; exact: rat_inverse_unit.
exact: (measurement_update_shrinks_covariance rat_inverse_unit unit_pose
          sym_prior psd_prior sym_noise pd_noise).
Defined.

Lemma scaler_update_estimate_witness :
  [/\ (0 : rat) <= 1 / 10%:R,
      0 < adaptivity_window_length :> rat,
      symmetric (innovation_cov_estimate (MkScaler (R := rat) 0 0)) &
      psd (innovation_cov_estimate (MkScaler (R := rat) 0 0))]
  /\ (let r := KalmanProcessNoiseScaler_update (MkScaler (R := rat) 0 0)
                 (kf fresh_filter) (1 / 10%:R) in
      [/\ symmetric (innovation_cov_estimate r.1),
          psd (innovation_cov_estimate r.1) &
          base_cov r.1 = 0]).
Proof.
have dt_ge0 : (0 : rat) <= 1 / 10%:R by rewrite divr_ge0 // ler0n.
have window_gt0 : 0 < adaptivity_window_length :> rat.
  by rewrite /= divr_gt0 // ltr0n.
have sym_est : symmetric (innovation_cov_estimate (MkScaler (R := rat) 0 0)).
  exact: symmetric0.
have psd_est : psd (innovation_cov_estimate (MkScaler (R := rat) 0 0)).
  exact: psd0.
split; first by split.
have [[_ _ sym_est' psd_est'] [_ baseE _]] :=
  scaler_update_estimate (kf fresh_filter) dt_ge0 window_gt0 sym_est psd_est.
by split.
Defined.

Lemma elapsed_time_accumulates_witness :
  [/\ sliders_changed warmed_filter sliders_a = false &
      first_run warmed_filter = false]
  /\ (let r := FTNoIR_Filter_filter warmed_filter sliders_a (1 / 10%:R)
                 unit_pose 0 in
      let total := dt_since_last_input warmed_filter
                   + (1 / 10%:R - timer warmed_filter) in
      dt_since_last_input r.1
      = if is_new_input warmed_filter unit_pose then 0 else total).
Proof.
have [_ unchanged not_first _ _] :=
  warm_up_tick blank_members sliders_a 0 unit_pose 0.
split; first by split.
have [dtE _ _] :=
  elapsed_time_accumulates (1 / 10%:R) unit_pose 0 unchanged not_first.
exact: dtE.
Defined.

Lemma iso_running_S : iso_filter_S iso_running (3%:R / 4%:R) 0 2%:R != 0.
Proof. by vm_compute. Qed.

Lemma filter_keeps_axes_alike_witness :
  [/\ forall A : 'M[rat]_NZ, A \in unitmx -> inverse A = invmx A,
      process_simga_rot = process_sigma_pos :> rat &
      iso_filter_S iso_running (3%:R / 4%:R) 0 2%:R != 0]
  /\ (let r := FTNoIR_Filter_filter (filter_of_iso iso_running)
                 (Settings (3%:R / 4%:R) (3%:R / 4%:R)) 0 (const_mx 2%:R)
                 (const_mx 0) in
      forall a b : 'I_NZ, r.2 a 0 = r.2 b 0).
Proof.
split.
  by split; [exact: rat_inverse_unit | exact: rat_process_sigma_same
            | exact: iso_running_S].
have [_ _ alike] :=
  filter_keeps_axes_alike rat_inverse_unit rat_process_sigma_same 0
    iso_running_S.
exact: alike.
Defined.

Lemma fresh_noise_unit : measurement_noise_cov (kf fresh_filter) \in unitmx.
Proof.
have [_ _ _ ->] := fresh_covariances.
by apply/pd_unitmx/pd_measurement_noise_mx; exact: rat_map_slider_value_gt0.
Qed.

Lemma measurement_update_zero_prior_witness :
  (state_cov_prior (kf fresh_filter) = 0
   /\ measurement_noise_cov (kf fresh_filter) \in unitmx)
  /\ (let S := measurement_matrix (kf fresh_filter)
                *m state_cov_prior (kf fresh_filter)
                *m (measurement_matrix (kf fresh_filter))^T
                + measurement_noise_cov (kf fresh_filter) in
      let kf' := KalmanFilter_measurement_update (kf fresh_filter)
                   unit_pose in
      [/\ S = measurement_noise_cov (kf fresh_filter) /\ S \in unitmx,
          kalman_gain kf' = 0, state kf' = state_prior (kf fresh_filter) &
          state_cov kf' = 0]).
Proof.
have [_ prior0 _ _] := fresh_covariances.
split; first by split; [exact: prior0 | exact: fresh_noise_unit].
exact: (measurement_update_zero_prior unit_pose prior0 fresh_noise_unit).
Defined.

Lemma noise_free_kf_unit :
  measurement_matrix noise_free_kf *m state_cov_prior noise_free_kf
    *m (measurement_matrix noise_free_kf)^T \in unitmx.
Proof.
rewrite [measurement_matrix _]/= [state_cov_prior _]/= mulmx1.
by rewrite tr_row_mx mul_row_col trmx1 trmx0 mulmx1 mulmx0 addr0 unitmx1.
Qed.

Lemma measurement_update_exact_measurement_witness :
  [/\ forall A : 'M[rat]_NZ, A \in unitmx -> inverse A = invmx A,
      measurement_noise_cov noise_free_kf = 0 &
      measurement_matrix noise_free_kf *m state_cov_prior noise_free_kf
        *m (measurement_matrix noise_free_kf)^T \in unitmx]
  /\ (let kf' := KalmanFilter_measurement_update noise_free_kf unit_pose in
      measurement_matrix noise_free_kf *m state kf' = unit_pose).
Proof.
have noise0 : measurement_noise_cov noise_free_kf = 0 by [].
split; first by split; [exact: rat_inverse_unit | | exact: noise_free_kf_unit].
have [poseE _] :=
  measurement_update_exact_measurement rat_inverse_unit unit_pose noise0
    noise_free_kf_unit.
exact: poseE.
Defined.

Lemma rat_sqrt0 : sqrt 0 = 0 :> rat.
Proof. by apply/eqP; vm_compute. Qed.

Lemma output_is_pose_at_minimum_witness :
  [/\ sqrt 0 = 0 :> rat,
      first_run (slider_check settled_filter sliders_a) = false &
      variance_of
        (kf (FTNoIR_Filter_filter settled_filter sliders_a (1 / 10%:R)
               unit_pose 0).1) ord0 0
      <= minimal_state_var (slider_check settled_filter sliders_a) ord0 0]
  /\ (let r := FTNoIR_Filter_filter settled_filter sliders_a (1 / 10%:R)
                 unit_pose 0 in
      [/\ minimal_state_var r.1 ord0 0 = variance_of (kf r.1) ord0 0,
          dz_size (dz_filter r.1) ord0 0 = 0 &
          r.2 ord0 0 = head6 (state (kf r.1)) ord0 0]).
Proof.
have unchanged : sliders_changed settled_filter sliders_a = false.
  by rewrite /sliders_changed [prev_slider_pos _]/=; vm_compute.
have checkE : slider_check settled_filter sliders_a = settled_filter.
  by rewrite /slider_check unchanged.
have not_first : first_run (slider_check settled_filter sliders_a) = false.
  by rewrite checkE.
have not_new : is_new_input settled_filter unit_pose = false.
  by rewrite /is_new_input vector_neqE eqxx.
have kfE : kf (FTNoIR_Filter_filter settled_filter sliders_a (1 / 10%:R)
                 unit_pose 0).1 = kf settled_filter.
  by rewrite /FTNoIR_Filter_filter checkE running_tick // not_new.
have at_minimum :
  variance_of
    (kf (FTNoIR_Filter_filter settled_filter sliders_a (1 / 10%:R)
           unit_pose 0).1) ord0 0
  <= minimal_state_var (slider_check settled_filter sliders_a) ord0 0.
  by rewrite kfE checkE !mxE eqxx.
split; first by split; [exact: rat_sqrt0 | exact: not_first | exact: at_minimum].
exact: (output_is_pose_at_minimum rat_sqrt0 not_first at_minimum).
Defined.

Lemma first_step_process_noise_witness :
  unit_pose != 0
  /\ (let st1 := FTNoIR_Filter_filter
                   (FTNoIR_Filter_ctor blank_members sliders_a) sliders_a 0 0
                   0 in
      let r := FTNoIR_Filter_filter st1.1 sliders_a (1 / 10%:R) unit_pose
                 st1.2 in
      let dt := 0 + (1 / 10%:R - 0) in
      process_noise_cov (kf r.1)
      = (1 / 1000%:R)
        *: process_noise_mx (process_sigma_pos * process_sigma_pos * dt)
             (process_simga_rot * process_simga_rot * dt) 20%:R 1).
Proof.
split; first exact: unit_pose_neq0.
exact: (first_step_process_noise blank_members sliders_a 0 (1 / 10%:R) 0 0
          unit_pose_neq0).
Defined.

End RationalInstance.

(* ===================================================================== *)
(* DeadzoneFilter::filter in binary64: the output can pass the input      *)
(* ===================================================================== *)

Section Binary64Instance.

Import BinNums BinInt SpecFloat.


End Binary64Instance.
